(** * FlashLearnEMS: device identity, license binding and rate limiting

    A shallow embedding of the three client-side protection modules of the
    repository,

    - [device-fingerprint.ts]  (capture, register, verify, similarity),
    - [encryption.ts]          (the CryptoJS wrappers used by the license store),
    - [license.ts]             (license store, validation, deactivation) and
    - the rate limiter         (sliding window, block flag, bot heuristic),

    followed by the properties the specification states about them.

    Conventions.  [Date.now()] is an argument [now : Z] (milliseconds).
    [localStorage] is a record with one optional slot per key the modules
    use; a slot holding JSON text is represented by the value the text
    parses to.  JavaScript numbers that the modules only count, add or
    compare are integers here ([Z]).  The similarity score of
    [calculateSimilarity] is an exact rational ([Q]): the exact comparison
    with 0.8 and the comparison of the rounded doubles agree (two distinct
    fractions with denominators 5 and [n] are at least [1/(5n)] apart).
    The mean and the variance of [detectBotBehavior] are IEEE 754 binary64
    numbers ([PrimFloat.float]), computed with the operations and in the
    order of the source, because the comparison with the threshold [100]
    depends on the rounding; [Math.pow], whose result ECMAScript does not
    fix to the last bit, is a primitive of the platform. *)

From Stdlib Require Import ZArith QArith List String Ascii Bool Lia DecimalString.
From Stdlib Require Floats Uint63.
Import ListNotations.
Local Open Scope Z_scope.
Local Open Scope string_scope.

(** ** JavaScript values *)

Module JS.

(** The values a fingerprint component can hold. *)
Inductive value : Type :=
| Undefined
| Boolean (b : bool)
| Number (n : Z)
| Str (s : string).

(** [x === y] *)
Definition strict_eq (x y : value) : bool :=
  match x, y with
  | Undefined, Undefined => true
  | Boolean a, Boolean b => Bool.eqb a b
  | Number a, Number b => Z.eqb a b
  | Str a, Str b => String.eqb a b
  | _, _ => false
  end.

(** String conversion as performed by a template literal. *)
Definition to_string (v : value) : string :=
  match v with
  | Undefined => "undefined"
  | Boolean true => "true"
  | Boolean false => "false"
  | Number n => NilZero.string_of_int (Z.to_int n)
  | Str s => s
  end.

(** An object literal: its own enumerable properties in insertion order. *)
Definition object : Type := list (string * value).

(** [o[k]]: a missing property reads as [undefined]. *)
Fixpoint get (o : object) (k : string) : value :=
  match o with
  | [] => Undefined
  | (k', v) :: rest => if String.eqb k' k then v else get rest k
  end.

(** [Object.keys(o)] *)
Definition keys (o : object) : list string := map fst o.

(** [JSON.parse(JSON.stringify(o))]: properties whose value is
    [undefined] are not serialised. *)
Definition json_roundtrip (o : object) : object :=
  filter (fun kv => match snd kv with Undefined => false | _ => true end) o.

(** The result of a division of two counts. *)
Inductive quotient : Type :=
| NaN
| Infinity
| Finite (q : Q).

(** [m / n] for non-negative integers [m], [n]. *)
Definition div (m n : Z) : quotient :=
  if Z.eqb n 0 then (if Z.eqb m 0 then NaN else Infinity)
  else Finite (m # Z.to_pos n).

(** [x > c] for a finite constant [c]; every comparison with [NaN] is false. *)
Definition gtb (x : quotient) (c : Q) : bool :=
  match x with
  | NaN => false
  | Infinity => true
  | Finite q => negb (Qle_bool q c)
  end.

(** [x >= c] *)
Definition geb (x : quotient) (c : Q) : bool :=
  match x with
  | NaN => false
  | Infinity => true
  | Finite q => Qle_bool c q
  end.

End JS.

(** ** Data model *)

(** [interface DeviceFingerprint] *)
Record DeviceFingerprint : Type := {
  fp_id : string;
  fp_components : JS.object;
  fp_timestamp : Z
}.

Inductive Tier : Type := free | student | pro | lifetime.

(** [interface License] *)
Record License : Type := {
  key : string;
  email : string;
  deviceId : string;
  activatedAt : Z;
  expiresAt : option Z;
  maxDevices : Z;
  currentDevices : list string;
  tier : Tier;
  features : list string
}.

(** [interface LicenseValidationResult] *)
Record LicenseValidationResult : Type := {
  res_valid : bool;
  res_license : option License;
  res_error : option string;
  res_daysRemaining : option Z
}.

(** The primitives the modules import: WebCrypto's SHA-256 (hex encoded by
    the caller) and the CryptoJS wrappers of [encryption.ts] under the
    installation key [chapterflash_ek].  [decryptData] throws on input it
    cannot decrypt or parse, which is [None] here. *)
Class Crypto : Type := {
  cipher : Type;
  sha256_hex : string -> string;
  encryptData : License -> cipher;
  decryptData : cipher -> option License;
  hashData : License -> string
}.

(** What the license store relies on: decryption inverts encryption and a
    hex digest is never the empty string. *)
Class CryptoLaws (C : Crypto) : Prop := {
  decrypt_encrypt : forall l : License, decryptData (encryptData l) = Some l;
  hashData_nonempty : forall l : License, hashData l <> ""
}.

(** What tamper detection relies on in addition: the tag tells any two
    payloads apart.  [hashData] is SHA-256 over [JSON.stringify]; the
    serialisation is injective on license objects and the digest is taken
    to be free of collisions. *)
Class CollisionFree (C : Crypto) : Prop := {
  hashData_injective : forall l l' : License, hashData l = hashData l' -> l = l'
}.

(** [localStorage], restricted to the keys of the identity and license
    stores. *)
Record Storage {C : Crypto} : Type := {
  chapterflash_device : option DeviceFingerprint;
  chapterflash_license : option cipher;
  chapterflash_license_hash : option string;
  chapterflash_activation_date : option string
}.

Definition empty_storage {C : Crypto} : Storage :=
  {| chapterflash_device := None;
     chapterflash_license := None;
     chapterflash_license_hash := None;
     chapterflash_activation_date := None |}.

Definition set_device {C : Crypto} (d : DeviceFingerprint) (st : Storage) : Storage :=
  {| chapterflash_device := Some d;
     chapterflash_license := chapterflash_license st;
     chapterflash_license_hash := chapterflash_license_hash st;
     chapterflash_activation_date := chapterflash_activation_date st |}.

(** Code that reads and writes [localStorage]. *)
Definition M {C : Crypto} (A : Type) : Type := Storage -> A * Storage.

Definition ret {C : Crypto} {A : Type} (a : A) : M A := fun st => (a, st).

Definition bind {C : Crypto} {A B : Type} (m : M A) (k : A -> M B) : M B :=
  fun st => let (a, st') := m st in k a st'.

Notation "x <- m ;; k" := (bind m (fun x => k))
  (at level 61, m at next level, right associativity).

(** ** Device fingerprint *)

(** What a capture reads from the browser.  [env_canvas] is the data URL
    returned by [getCanvasFingerprint]; the two optional readings are
    [undefined] on browsers without the API. *)
Record Env : Type := {
  env_canvas : string;
  env_userAgent : string;
  env_language : string;
  env_timezone : string;
  env_screen_width : Z;
  env_screen_height : Z;
  env_colorDepth : Z;
  env_platform : string;
  env_hardwareConcurrency : option Z;
  env_deviceMemory : option Z;
  env_touchSupport : bool;
  env_vendor : string
}.

(** [x || fallback] on an optional number: [undefined] and [0] are falsy. *)
Definition number_or (x : option Z) (fallback : JS.value) : JS.value :=
  match x with
  | Some n => if Z.eqb n 0 then fallback else JS.Number n
  | None => fallback
  end.

(** The [components] literal of [getDeviceFingerprint], in source order. *)
Definition capture_components (env : Env) : JS.object :=
  [ ("canvas", JS.Str (env_canvas env));
    ("userAgent", JS.Str (env_userAgent env));
    ("language", JS.Str (env_language env));
    ("timezone", JS.Str (env_timezone env));
    ("screen", JS.Str (JS.to_string (JS.Number (env_screen_width env)) ++ "x"
                       ++ JS.to_string (JS.Number (env_screen_height env)) ++ "x"
                       ++ JS.to_string (JS.Number (env_colorDepth env))));
    ("colorDepth", JS.Number (env_colorDepth env));
    ("platform", JS.Str (env_platform env));
    ("hardwareConcurrency", number_or (env_hardwareConcurrency env) (JS.Number 0));
    ("deviceMemory", number_or (env_deviceMemory env) JS.Undefined);
    ("touchSupport", JS.Boolean (env_touchSupport env));
    ("vendor", JS.Str (env_vendor env)) ].

(** [Object.entries(components).map(([key, value]) => `${key}:${value}`).join('|')] *)
Definition compositeString (c : JS.object) : string :=
  String.concat "|" (map (fun kv => fst kv ++ ":" ++ JS.to_string (snd kv)) c).

Definition getDeviceFingerprint {C : Crypto} (env : Env) (now : Z) : DeviceFingerprint :=
  let components := capture_components env in
  {| fp_id := sha256_hex (compositeString components);
     fp_components := components;
     fp_timestamp := now |}.

(** The record read back from [JSON.parse(JSON.stringify(fingerprint))]. *)
Definition persisted (f : DeviceFingerprint) : DeviceFingerprint :=
  {| fp_id := fp_id f;
     fp_components := JS.json_roundtrip (fp_components f);
     fp_timestamp := fp_timestamp f |}.

Definition registerDevice {C : Crypto} (env : Env) (now : Z) : M bool :=
  fun st =>
    let fingerprint := getDeviceFingerprint env now in
    match chapterflash_device st with
    | None => (true, set_device (persisted fingerprint) st)
    | Some existing =>
        if negb (String.eqb (fp_id existing) (fp_id fingerprint))
        then (false, st)
        else (false, set_device (persisted fingerprint) st)
    end.

Definition getDeviceId {C : Crypto} (env : Env) (now : Z) : M string :=
  fun st =>
    match chapterflash_device st with
    | Some data => (fp_id data, st)
    | None =>
        let fingerprint := getDeviceFingerprint env now in
        (fp_id fingerprint, set_device (persisted fingerprint) st)
    end.

(** The loop of [calculateSimilarity]: the number of keys of [a] on which
    [a] and [b] agree. *)
Definition count_matches (a b : JS.object) : Z :=
  fold_left
    (fun matches k => if JS.strict_eq (JS.get a k) (JS.get b k) then matches + 1 else matches)
    (JS.keys a) 0.

Definition calculateSimilarity (a b : JS.object) : JS.quotient :=
  JS.div (count_matches a b) (Z.of_nat (List.length (JS.keys a))).

(** [verifyDevice].  Its [catch] block answers false when the stored text
    is not a fingerprint record; a slot of this storage always holds one,
    so the block has no counterpart here. *)
Definition verifyDevice {C : Crypto} (env : Env) (now : Z) : M bool :=
  fun st =>
    match chapterflash_device st with
    | None =>
        _ <- registerDevice env now ;;
        ret true
    | Some existing =>
        let current := getDeviceFingerprint env now in
        let similarityScore :=
          calculateSimilarity (fp_components existing) (fp_components current) in
        ret (JS.gtb similarityScore (8 # 10))
    end st.

(** ** License store *)

Definition is_upper_alnum (c : ascii) : bool :=
  let n := nat_of_ascii c in
  ((65 <=? n)%nat && (n <=? 90)%nat) || ((48 <=? n)%nat && (n <=? 57)%nat).

(** Consume a literal prefix. *)
Fixpoint expect (p s : string) : option string :=
  match p with
  | EmptyString => Some s
  | String a p' =>
      match s with
      | String b s' => if Ascii.eqb a b then expect p' s' else None
      | EmptyString => None
      end
  end.

(** Consume [n] characters of the class [[A-Z0-9]]. *)
Fixpoint expect_alnum (n : nat) (s : string) : option string :=
  match n with
  | O => Some s
  | S n' =>
      match s with
      | String c s' => if is_upper_alnum c then expect_alnum n' s' else None
      | EmptyString => None
      end
  end.

(** Consume one [-[A-Z0-9]{5}] group. *)
Definition expect_segment (s : string) : option string :=
  match expect "-" s with
  | Some r => expect_alnum 5 r
  | None => None
  end.

(** [/^CFEMT-[A-Z0-9]{5}-[A-Z0-9]{5}-[A-Z0-9]{5}-[A-Z0-9]{5}$/.test(key)] *)
Definition isValidLicenseFormat (k : string) : bool :=
  match expect "CFEMT" k with
  | Some r0 =>
      match expect_segment r0 with
      | Some r1 =>
          match expect_segment r1 with
          | Some r2 =>
              match expect_segment r2 with
              | Some r3 =>
                  match expect_segment r3 with
                  | Some EmptyString => true
                  | _ => false
                  end
              | None => false
              end
          | None => false
          end
      | None => false
      end
  | None => false
  end.

Definition storeLicense {C : Crypto} (license : License) : M unit :=
  fun st =>
    (tt, {| chapterflash_device := chapterflash_device st;
            chapterflash_license := Some (encryptData license);
            chapterflash_license_hash := Some (hashData license);
            chapterflash_activation_date := chapterflash_activation_date st |}).

Definition revokeLicense {C : Crypto} : M unit :=
  fun st =>
    (tt, {| chapterflash_device := chapterflash_device st;
            chapterflash_license := None;
            chapterflash_license_hash := None;
            chapterflash_activation_date := None |}).

(** [getStoredLicense].  A missing slot and an empty tag are falsy; an
    empty ciphertext is not told apart from any other text [decryptData]
    rejects, since both make the function return [null] with the storage
    as it was.  The [catch] block is the [None] branch of the decryption. *)
Definition getStoredLicense {C : Crypto} : M (option License) :=
  fun st =>
    match chapterflash_license st, chapterflash_license_hash st with
    | Some encrypted, Some storedHash =>
        if String.eqb storedHash "" then (None, st)
        else
          match decryptData encrypted with
          | None => (None, st)
          | Some license =>
              let currentHash := hashData license in
              if negb (String.eqb currentHash storedHash)
              then (_ <- revokeLicense ;; ret None) st
              else (Some license, st)
          end
    | _, _ => (None, st)
    end.

Definition includes (l : list string) (x : string) : bool :=
  existsb (fun y => String.eqb y x) l.

Definition with_currentDevices (license : License) (devices : list string) : License :=
  {| key := key license;
     email := email license;
     deviceId := deviceId license;
     activatedAt := activatedAt license;
     expiresAt := expiresAt license;
     maxDevices := maxDevices license;
     currentDevices := devices;
     tier := tier license;
     features := features license |}.

(** [Math.ceil(x / d)] for integers [x] and [d > 0]. *)
Definition ceil_div (x d : Z) : Z := - ((- x) / d).

Definition MS_PER_DAY : Z := 1000 * 60 * 60 * 24.

(** [license.expiresAt && Date.now() > license.expiresAt] *)
Definition expired (license : License) (now : Z) : bool :=
  match expiresAt license with
  | Some e => negb (Z.eqb e 0) && Z.ltb e now
  | None => false
  end.

Definition daysRemaining (license : License) (now : Z) : option Z :=
  match expiresAt license with
  | Some e => if Z.eqb e 0 then None else Some (ceil_div (e - now) MS_PER_DAY)
  | None => None
  end.

Definition format_error : LicenseValidationResult :=
  {| res_valid := false; res_license := None;
     res_error := Some "Invalid license key format";
     res_daysRemaining := None |}.

Definition no_license_error : LicenseValidationResult :=
  {| res_valid := false; res_license := None;
     res_error := Some "No license found. Please activate your license.";
     res_daysRemaining := None |}.

Definition expired_error : LicenseValidationResult :=
  {| res_valid := false; res_license := None;
     res_error := Some "License has expired";
     res_daysRemaining := Some 0 |}.

Definition device_limit_error (license : License) : LicenseValidationResult :=
  {| res_valid := false; res_license := None;
     res_error := Some ("License is already active on "
                        ++ JS.to_string (JS.Number (maxDevices license))
                        ++ " devices. Please deactivate a device first.");
     res_daysRemaining := None |}.

Definition valid_result (license : License) (now : Z) : LicenseValidationResult :=
  {| res_valid := true; res_license := Some license;
     res_error := None;
     res_daysRemaining := daysRemaining license now |}.

(** The part of [validateLicense] after a license object is in hand:
    expiry, device slot accounting, days remaining. *)
Definition checkLicense {C : Crypto} (license : License) (env : Env) (now : Z)
  : M LicenseValidationResult :=
  if expired license now then ret expired_error
  else
    currentDeviceId <- getDeviceId env now ;;
    if negb (includes (currentDevices license) currentDeviceId) then
      if Z.geb (Z.of_nat (List.length (currentDevices license))) (maxDevices license)
      then ret (device_limit_error license)
      else
        let license' :=
          with_currentDevices license (currentDevices license ++ [currentDeviceId]) in
        _ <- storeLicense license' ;;
        ret (valid_result license' now)
    else ret (valid_result license now).

(** The demo license built on activation. *)
Definition demo_license (licenseKey deviceId : string) (now : Z) : License :=
  {| key := licenseKey;
     email := "user@example.com";
     deviceId := deviceId;
     activatedAt := now;
     expiresAt := None;
     maxDevices := 3;
     currentDevices := [deviceId];
     tier := student;
     features := ["offline_access"; "all_chapters"; "progress_tracking"; "export_data"] |}.

(** [validateLicense(licenseKey?)]; an omitted and an empty key are falsy. *)
Definition validateLicense {C : Crypto} (licenseKey : option string) (env : Env) (now : Z)
  : M LicenseValidationResult :=
  stored <- getStoredLicense ;;
  match stored with
  | Some license => checkLicense license env now
  | None =>
      match licenseKey with
      | Some k =>
          if String.eqb k "" then ret no_license_error
          else if negb (isValidLicenseFormat k) then ret format_error
          else
            deviceId <- getDeviceId env now ;;
            let license := demo_license k deviceId now in
            _ <- storeLicense license ;;
            checkLicense license env now
      | None => ret no_license_error
      end
  end.

Definition deactivateDevice {C : Crypto} (env : Env) (now : Z) : M bool :=
  stored <- getStoredLicense ;;
  match stored with
  | None => ret false
  | Some license =>
      currentDeviceId <- getDeviceId env now ;;
      let license' :=
        with_currentDevices license
          (filter (fun id => negb (String.eqb id currentDeviceId)) (currentDevices license)) in
      _ <- storeLicense license' ;;
      ret true
  end.

(** The license a call of [getStoredLicense] would return. *)
Definition stored_license {C : Crypto} (st : Storage) : option License :=
  fst (getStoredLicense st).

(** States of the local storage that the modules themselves produce,
    starting from a fresh profile.  [reach_identity] replaces the identity
    record: the profile is opened on another machine, or the record is
    refreshed by [registerDevice]. *)
Inductive reachable {C : Crypto} : Storage -> Prop :=
| reach_empty : reachable empty_storage
| reach_validate : forall st licenseKey env now,
    reachable st -> reachable (snd (validateLicense licenseKey env now st))
| reach_deactivate : forall st env now,
    reachable st -> reachable (snd (deactivateDevice env now st))
| reach_revoke : forall st,
    reachable st -> reachable (snd (revokeLicense st))
| reach_register : forall st env now,
    reachable st -> reachable (snd (registerDevice env now st))
| reach_verify : forall st env now,
    reachable st -> reachable (snd (verifyDevice env now st))
| reach_identity : forall st d,
    reachable st -> reachable (set_device d st).

(** ** Rate limiter *)

(** [interface RequestRecord] *)
Record RequestRecord : Type := {
  req_timestamp : Z;
  req_action : string;
  req_count : Z
}.

(** An entry of the [chapterflash_security_logs] array (the user agent and
    the fixed message are left out). *)
Record SecurityLog : Type := {
  log_timestamp : Z;
  log_action : string;
  log_requestCount : Z
}.

(** The private fields of [class RateLimiter], together with the log
    array it keeps in [localStorage]. *)
Record RateLimiter : Type := {
  requests : list RequestRecord;
  blocked : bool;
  blockUntil : Z;
  chapterflash_security_logs : list SecurityLog
}.

Definition FLASHCARD_LIMIT : Z := 50.
Definition API_LIMIT : Z := 100.
Definition WINDOW_MS : Z := 60000.
Definition BLOCK_DURATION : Z := 300000.

(** [new RateLimiter()] on a profile without security logs. *)
Definition new_RateLimiter : RateLimiter :=
  {| requests := []; blocked := false; blockUntil := 0;
     chapterflash_security_logs := [] |}.

Definition getActionLimit (action : string) : Z :=
  if String.eqb action "flashcard_view" then FLASHCARD_LIMIT
  else if String.eqb action "api_call" then API_LIMIT
  else if String.eqb action "export_data" then 5
  else if String.eqb action "chapter_access" then 20
  else 100.

(** [logSuspiciousActivity]: append, then drop the oldest entry when more
    than 50 are held. *)
Definition logSuspiciousActivity (action : string) (count now : Z)
  (logs : list SecurityLog) : list SecurityLog :=
  let existing :=
    (logs ++ [ {| log_timestamp := now; log_action := action; log_requestCount := count |} ])%list in
  if (50 <? List.length existing)%nat then tl existing else existing.

(** [limit || this.getActionLimit(action)]: an omitted limit and [0] are falsy. *)
Definition effective_limit (action : string) (limit : option Z) : Z :=
  match limit with
  | Some l => if Z.eqb l 0 then getActionLimit action else l
  | None => getActionLimit action
  end.

(** [canProceed(action, limit?)] at time [now]. *)
Definition canProceed (action : string) (limit : option Z) (now : Z) (rl : RateLimiter)
  : bool * RateLimiter :=
  if blocked rl && Z.ltb now (blockUntil rl) then (false, rl)
  else
    let rl1 :=
      if blocked rl && Z.geb now (blockUntil rl)
      then {| requests := []; blocked := false; blockUntil := blockUntil rl;
              chapterflash_security_logs := chapterflash_security_logs rl |}
      else rl in
    let kept := filter (fun req => Z.ltb (now - req_timestamp req) WINDOW_MS) (requests rl1) in
    let maxRequests := effective_limit action limit in
    let actionRequests := filter (fun req => String.eqb (req_action req) action) kept in
    let totalCount := fold_left (fun sum req => sum + req_count req) actionRequests 0 in
    if Z.geb totalCount maxRequests then
      (false,
       {| requests := kept; blocked := true; blockUntil := now + BLOCK_DURATION;
          chapterflash_security_logs :=
            logSuspiciousActivity action totalCount now (chapterflash_security_logs rl1) |})
    else
      (true,
       {| requests :=
            (kept ++ [ {| req_timestamp := now; req_action := action; req_count := 1 |} ])%list;
          blocked := blocked rl1; blockUntil := blockUntil rl1;
          chapterflash_security_logs := chapterflash_security_logs rl1 |}).

(** [arr.map((x, i, arr) => f(x, i))], from index [i]. *)
Fixpoint mapi_from {A B : Type} (f : A -> nat -> B) (i : nat) (l : list A) : list B :=
  match l with
  | [] => []
  | x :: rest => f x i :: mapi_from f (S i) rest
  end.

(** The [.map] of pattern 2: [null] at index 0, else the distance to the
    previous request. *)
Definition raw_intervals (arr : list RequestRecord) : list (option Z) :=
  mapi_from
    (fun req i =>
       if Nat.eqb i 0 then None
       else match nth_error arr (i - 1) with
            | Some prev => Some (req_timestamp req - req_timestamp prev)
            | None => None
            end)
    0 arr.

(** [.filter(Boolean)]: [null] and [0] are falsy. *)
Fixpoint filter_Boolean (l : list (option Z)) : list Z :=
  match l with
  | [] => []
  | Some z :: rest => if Z.eqb z 0 then filter_Boolean rest else z :: filter_Boolean rest
  | None :: rest => filter_Boolean rest
  end.

(** The JavaScript number (a double) holding the integer [z]: exact for
    [|z| <= 2^53], which covers millisecond timestamps, their differences
    and the lengths of arrays. *)
Definition js_number (z : Z) : PrimFloat.float :=
  if Z.ltb z 0 then PrimFloat.opp (PrimFloat.of_uint63 (Uint63.of_Z (- z)))
  else PrimFloat.of_uint63 (Uint63.of_Z z).

(** [Math.pow(x, 2)].  ECMAScript leaves the result of [Math.pow]
    implementation-approximated: engines, and the tiers of one engine, may
    differ in the last bit of a square.  The square is therefore a
    primitive of the platform. *)
Class Engine : Type := {
  Math_pow_2 : PrimFloat.float -> PrimFloat.float
}.


(** [intervals.reduce((a, b) => a + b, 0) / intervals.length], in doubles. *)
Definition avgInterval (intervals : list Z) : PrimFloat.float :=
  PrimFloat.div
    (fold_left (fun a b => PrimFloat.add a (js_number b)) intervals (js_number 0))
    (js_number (Z.of_nat (List.length intervals))).

(** The second [reduce] of pattern 2, divided by the number of intervals. *)
Definition variance {E : Engine} (intervals : list Z) : PrimFloat.float :=
  let avg := avgInterval intervals in
  PrimFloat.div
    (fold_left
       (fun sum interval =>
          PrimFloat.add sum (Math_pow_2 (PrimFloat.sub (js_number interval) avg)))
       intervals (js_number 0))
    (js_number (Z.of_nat (List.length intervals))).

Definition detectBotBehavior {E : Engine} (now : Z) (rl : RateLimiter) : bool :=
  let recentRequests := filter (fun req => Z.ltb (now - req_timestamp req) 5000) (requests rl) in
  if (20 <? List.length recentRequests)%nat then true
  else
    let intervals := filter_Boolean (raw_intervals (requests rl)) in
    if (10 <? List.length intervals)%nat then
      if PrimFloat.ltb (variance intervals) (js_number 100) then true else false
    else false.

(** *** The heuristic as the specification words it *)

(** Distances between consecutive timestamps. *)
Fixpoint gaps (ts : list Z) : list Z :=
  match ts with
  | a :: (b :: _) as rest => (b - a) :: gaps rest
  | _ => []
  end.

Definition Qsum (l : list Q) : Q := fold_right Qplus 0%Q l.

Definition Zsum (l : list Z) : Z := fold_right Z.add 0 l.

Definition mean (l : list Z) : Q :=
  (inject_Z (Zsum l) / inject_Z (Z.of_nat (List.length l)))%Q.

(** Mean squared deviation from the mean. *)
Definition gap_variance (l : list Z) : Q :=
  (Qsum (map (fun g => (inject_Z g - mean l) * (inject_Z g - mean l)) l)
   / inject_Z (Z.of_nat (List.length l)))%Q.



(** [n] timestamps starting at [t0], [d] milliseconds apart. *)
Fixpoint evenly_spaced (t0 d : Z) (n : nat) : list Z :=
  match n with
  | O => []
  | S n' => t0 :: evenly_spaced (t0 + d) d n'
  end.

(** A limiter whose history is the given timestamps, all for one action. *)
Definition history (action : string) (ts : list Z) : RateLimiter :=
  {| requests :=
       map (fun t => {| req_timestamp := t; req_action := action; req_count := 1 |}) ts;
     blocked := false; blockUntil := 0;
     chapterflash_security_logs := [] |}.

(** Successive calls of [canProceed] at the given times. *)
Fixpoint run_calls (action : string) (limit : option Z) (times : list Z) (rl : RateLimiter)
  : list bool * RateLimiter :=
  match times with
  | [] => ([], rl)
  | now :: rest =>
      let (ok, rl1) := canProceed action limit now rl in
      let (oks, rl2) := run_calls action limit rest rl1 in
      (ok :: oks, rl2)
  end.

(** An engine whose [Math.pow(x, 2)] is the correctly rounded square, the
    double product [x * x] (what fdlibm's [pow] returns for the exponent
    2). *)
Definition Rounded : Engine :=
  {| Math_pow_2 := fun x => PrimFloat.mul x x |}.

(** Nineteen timestamps whose eighteen gaps have a variance of exactly
    100 in the rationals. *)
Definition jittered : list Z :=
  [0; 24; 35; 47; 57; 73; 90; 121; 124; 158; 186; 208; 227; 253; 292; 302; 304; 323; 348].


(** ** Invariants of the license store *)

(** The license and tag slots of two storages agree. *)
Definition same_license {C : Crypto} (st st' : Storage) : Prop :=
  chapterflash_license st' = chapterflash_license st
  /\ chapterflash_license_hash st' = chapterflash_license_hash st.

(** A license as activation builds it, with some of its three device
    slots taken. *)
Definition demo_shape (l : License) : Prop :=
  expiresAt l = None
  /\ maxDevices l = 3
  /\ Z.of_nat (List.length (currentDevices l)) <= 3.

Definition license_inv {C : Crypto} (st : Storage) : Prop :=
  forall l : License, stored_license st = Some l -> demo_shape l.

(** ** A reference platform

    Stand-ins for the cryptographic primitives on which the model can be
    run: the digest prefixes its input, a ciphertext is the license itself
    ([None] is a text that does not decrypt) and the integrity tag lists
    the fields of the license. *)

Definition plain_hash (l : License) : string :=
  "h:" ++ key l ++ "|" ++ email l ++ "|" ++ deviceId l
  ++ "|" ++ JS.to_string (JS.Number (activatedAt l))
  ++ "|" ++ match expiresAt l with Some e => JS.to_string (JS.Number e) | None => "null" end
  ++ "|" ++ JS.to_string (JS.Number (maxDevices l))
  ++ "|" ++ String.concat "," (currentDevices l)
  ++ "|" ++ match tier l with
            | free => "free" | student => "student" | pro => "pro" | lifetime => "lifetime"
            end
  ++ "|" ++ String.concat "," (features l).

Definition Plain : Crypto :=
  {| cipher := option License;
     sha256_hex := fun s => "sha256(" ++ s ++ ")";
     encryptData := fun l => Some l;
     decryptData := fun c => c;
     hashData := plain_hash |}.

(** A desktop browser without the device-memory hint. *)
Definition desktop : Env :=
  {| env_canvas := "data:image/png;base64,AAAA";
     env_userAgent := "Mozilla/5.0 (X11; Linux x86_64) Firefox/128.0";
     env_language := "en-US";
     env_timezone := "America/Denver";
     env_screen_width := 1920;
     env_screen_height := 1080;
     env_colorDepth := 24;
     env_platform := "Linux x86_64";
     env_hardwareConcurrency := Some 8;
     env_deviceMemory := None;
     env_touchSupport := false;
     env_vendor := "" |}.

(** The same machine after [changed] of its readings moved: language,
    timezone, then platform. *)
Definition drifted (changed : nat) : Env :=
  {| env_canvas := env_canvas desktop;
     env_userAgent := env_userAgent desktop;
     env_language := if (1 <=? changed)%nat then "de-DE" else env_language desktop;
     env_timezone := if (2 <=? changed)%nat then "Europe/Berlin" else env_timezone desktop;
     env_screen_width := env_screen_width desktop;
     env_screen_height := env_screen_height desktop;
     env_colorDepth := env_colorDepth desktop;
     env_platform := if (3 <=? changed)%nat then "Linux aarch64" else env_platform desktop;
     env_hardwareConcurrency := env_hardwareConcurrency desktop;
     env_deviceMemory := env_deviceMemory desktop;
     env_touchSupport := env_touchSupport desktop;
     env_vendor := env_vendor desktop |}.

(** The profile of [desktop] after its first [registerDevice] at time 1000. *)
Definition registered : @Storage Plain :=
  snd (@registerDevice Plain desktop 1000 (@empty_storage Plain)).

Definition demo_key : string := "CFEMT-12345-67890-ABCDE-FGHIJ".

(** [registered] after [validateLicense(demo_key)] at time 5000. *)
Definition activated : @Storage Plain :=
  snd (@validateLicense Plain (Some demo_key) desktop 5000 registered).

(** [activated] after [deactivateDevice()] at time 6000. *)
Definition deactivated : @Storage Plain :=
  snd (@deactivateDevice Plain desktop 6000 activated).

(** The license held by [activated]. *)
Definition activated_license : License :=
  demo_license demo_key (fp_id (@getDeviceFingerprint Plain desktop 1000)) 5000.

(** [activated] after an offline edit: the payload is re-encrypted with
    [maxDevices] raised to 99 and the integrity tag is left as it was. *)
Definition tampered : @Storage Plain :=
  {| chapterflash_device := chapterflash_device activated;
     chapterflash_license :=
       Some (@encryptData Plain
               {| key := key activated_license;
                  email := email activated_license;
                  deviceId := deviceId activated_license;
                  activatedAt := activatedAt activated_license;
                  expiresAt := expiresAt activated_license;
                  maxDevices := 99;
                  currentDevices := currentDevices activated_license;
                  tier := tier activated_license;
                  features := features activated_license |});
     chapterflash_license_hash := chapterflash_license_hash activated;
     chapterflash_activation_date := chapterflash_activation_date activated |}.

(** [activated] with the license slot overwritten by a text that does not
    decrypt. *)
Definition corrupted : @Storage Plain :=
  {| chapterflash_device := chapterflash_device activated;
     chapterflash_license := Some (@None License : @cipher Plain);
     chapterflash_license_hash := chapterflash_license_hash activated;
     chapterflash_activation_date := chapterflash_activation_date activated |}.

(** ** Further functions of the modules *)

(** *** License keys and read accessors ([license.ts]) *)

(** [s.charAt(i)]: the empty string when [i] is out of range. *)
Definition charAt (s : string) (i : nat) : string :=
  match String.get i s with
  | Some c => String c EmptyString
  | None => EmptyString
  end.

Definition key_chars : string := "ABCDEFGHIJKLMNOPQRSTUVWXYZ0123456789".

(** One segment of [generateLicenseKey]: five characters, the [j]-th picked
    by the draw numbered [first + j].  [draw k] is the value of
    [Math.floor(Math.random() * chars.length)] at the [k]-th call. *)
Definition key_segment (draw : nat -> nat) (first : nat) : string :=
  fold_left (fun segment j => segment ++ charAt key_chars (draw (first + j)%nat))
    (seq 0 5) "".

(** [generateLicenseKey()] *)
Definition generateLicenseKey (draw : nat -> nat) : string :=
  let segments := map (fun i => key_segment draw (5 * i)) (seq 0 4) in
  "CFEMT-" ++ String.concat "-" segments.

(** [hasFeature(feature)] *)
Definition hasFeature {C : Crypto} (feature : string) : M bool :=
  license <- getStoredLicense ;;
  match license with
  | None => ret false
  | Some l => ret (includes (features l) feature)
  end.

(** [getLicenseTier()]: every tier is a non-empty string, so [|| null]
    only applies to a missing license. *)
Definition getLicenseTier {C : Crypto} : M (option Tier) :=
  license <- getStoredLicense ;;
  ret (option_map tier license).

(** The object returned by [getLicenseInfo]. *)
Record LicenseInfo : Type := {
  info_tier : Tier;
  info_devicesUsed : Z;
  info_maxDevices : Z;
  info_expiresAt : option Z;
  info_features : list string
}.

Definition getLicenseInfo {C : Crypto} : M (option LicenseInfo) :=
  license <- getStoredLicense ;;
  match license with
  | None => ret None
  | Some l =>
      ret (Some {| info_tier := tier l;
                   info_devicesUsed := Z.of_nat (List.length (currentDevices l));
                   info_maxDevices := maxDevices l;
                   info_expiresAt := expiresAt l;
                   info_features := features l |})
  end.

(** [isLicenseValid()] *)
Definition isLicenseValid {C : Crypto} (env : Env) (now : Z) : M bool :=
  result <- validateLicense None env now ;;
  ret (res_valid result).

(** A key segment as the grammar wants it: five characters, each an
    upper-case letter or a digit. *)
Definition segment_ok (s : string) : Prop :=
  String.length s = 5%nat
  /\ Forall (fun c => is_upper_alnum c = true) (list_ascii_of_string s).

(** *** Start-up of the protection layer ([ContentProtectionLayer.tsx]) *)

(** [initializeDevice]: register, then verify; the pair of the two
    answers.  The two captures read the same environment, at the times
    [now1] and [now2]. *)
Definition initializeDevice {C : Crypto} (env : Env) (now1 now2 : Z) : M (bool * bool) :=
  isNewDevice <- registerDevice env now1 ;;
  isVerified <- verifyDevice env now2 ;;
  ret (isNewDevice, isVerified).

(** *** Rate limiter: status, reset and the wrapping gate *)



(** [reset()]; the log array in [localStorage] is not touched. *)
Definition reset (rl : RateLimiter) : RateLimiter :=
  {| requests := []; blocked := false; blockUntil := 0;
     chapterflash_security_logs := chapterflash_security_logs rl |}.

(** What a call of a function wrapped by [withRateLimit] produces: the
    value of the wrapped function or one of the two errors thrown. *)
Inductive Gated (B : Type) : Type :=
| Returned (b : B)
| RateLimitExceeded
| AutomatedAccess.

Arguments Returned {B} b.
Arguments RateLimitExceeded {B}.
Arguments AutomatedAccess {B}.

(** [withRateLimit(fn, action)(arg)].  The wrapped function acts on a
    state [W] of its own; [now] is the time read by [canProceed] and
    [now'] the time read by [detectBotBehavior]. *)
Definition withRateLimit {E : Engine} {W A B : Type} (fn : A -> W -> B * W) (action : string)
  (now now' : Z) (arg : A) (s : RateLimiter * W) : Gated B * (RateLimiter * W) :=
  let (ok, rl) := canProceed action None now (fst s) in
  if negb ok then (RateLimitExceeded, (rl, snd s))
  else if detectBotBehavior now' rl then (AutomatedAccess, (rl, snd s))
  else let (b, w) := fn arg (snd s) in (Returned b, (rl, w)).

(** States of the limiter that calls of [canProceed] and [reset] produce
    from a new instance. *)
Inductive limiter_reachable : RateLimiter -> Prop :=
| limiter_new : limiter_reachable new_RateLimiter
| limiter_canProceed : forall rl action limit now,
    limiter_reachable rl -> limiter_reachable (snd (canProceed action limit now rl))
| limiter_reset : forall rl,
    limiter_reachable rl -> limiter_reachable (reset rl).

(** The weight of the retained requests for [action] inside the window
    that ends at [now]. *)
Definition window_count (action : string) (now : Z) (reqs : list RequestRecord) : Z :=
  Z.of_nat
    (List.length
       (filter (fun req => Z.ltb (now - req_timestamp req) WINDOW_MS
                           && String.eqb (req_action req) action) reqs)).

(** *** Violation log ([useContentProtection.ts]) *)

(** An entry of the [chapterflash_violations] array (the user agent is
    left out). *)
Record Violation : Type := {
  violation_type : string;
  violation_timestamp : Z;
  violation_deviceId : string;
  violation_details : option string
}.

(** The storage part of [logViolation]: append, then drop the oldest entry
    when more than 100 are held. *)
Definition logViolation (violation : Violation) (stored : list Violation) : list Violation :=
  let existing := (stored ++ [violation])%list in
  if (100 <? List.length existing)%nat then tl existing else existing.

(** *** Streaks ([progress-storage.ts]) *)

(** [interface DailyStreak] *)
Record DailyStreak : Type := {
  streak_date : string;
  sessionsCompleted : Z;
  cardsStudied : Z;
  minutesStudied : Z
}.

Section Streaks.

(** The calendar as the method reads it: the sort by descending date, the
    date string of today, the date string of the day [i] days before
    today, and [isConsecutiveDay]. *)
Variable sort_by_date_desc : list DailyStreak -> list DailyStreak.
Variable today : string.
Variable expected : nat -> string.
Variable isConsecutiveDay : string -> string -> bool.

(** The [for] loop of [calculateStreaks] from index [i] on; [prev] is
    [sortedStreaks[i - 1]].  The result is the pair of [tempStreak] and
    [longestStreak] when the loop ends. *)
Fixpoint streak_loop (rest : list DailyStreak) (i : nat) (prev : option DailyStreak)
  (tempStreak longestStreak : Z) : Z * Z :=
  match rest with
  | [] => (tempStreak, longestStreak)
  | s :: rest' =>
      if String.eqb (streak_date s) (expected i) then
        if Nat.eqb i 0
           || String.eqb (streak_date s) today
           || match prev with
              | Some p => isConsecutiveDay (streak_date p) (streak_date s)
              | None => false
              end
        then
          let tempStreak' := tempStreak + 1 in
          let longestStreak' :=
            if Z.ltb longestStreak tempStreak' then tempStreak' else longestStreak in
          streak_loop rest' (S i) (Some s) tempStreak' longestStreak'
        else streak_loop rest' (S i) (Some s) tempStreak longestStreak
      else (tempStreak, longestStreak)
  end.

(** [calculateStreaks(streaks)]: the pair [(currentStreak, longestStreak)]. *)
Definition calculateStreaks (streaks : list DailyStreak) : Z * Z :=
  match streaks with
  | [] => (0, 0)
  | _ => streak_loop (sort_by_date_desc streaks) 0 None 0 0
  end.

End Streaks.

(** An identity record with a given id, as found on another machine. *)
Definition machine (name : string) : DeviceFingerprint :=
  {| fp_id := name; fp_components := []; fp_timestamp := 0 |}.

(** A license issued for one year from time 0 with a single device slot,
    as a backend would hand it to [storeLicense]. *)
Definition yearly_license : License :=
  {| key := demo_key;
     email := "student@example.com";
     deviceId := "A";
     activatedAt := 0;
     expiresAt := Some (365 * MS_PER_DAY);
     maxDevices := 1;
     currentDevices := ["A"];
     tier := pro;
     features := ["all_chapters"] |}.

(** The profile of machine [A] holding [yearly_license]. *)
Definition yearly_profile : @Storage Plain :=
  snd (@storeLicense Plain yearly_license (set_device (machine "A") (@empty_storage Plain))).

(** [yearly_license] on a profile that holds no identity record. *)
Definition yearly_unregistered : @Storage Plain :=
  snd (@storeLicense Plain yearly_license (@empty_storage Plain)).

(** Some field of the payload [mutated] differs from the field of
    [original]. *)
Definition field_mutated (original mutated : License) : Prop :=
  key mutated <> key original
  \/ email mutated <> email original
  \/ deviceId mutated <> deviceId original
  \/ activatedAt mutated <> activatedAt original
  \/ expiresAt mutated <> expiresAt original
  \/ maxDevices mutated <> maxDevices original
  \/ currentDevices mutated <> currentDevices original
  \/ tier mutated <> tier original
  \/ features mutated <> features original.

(** *** A second reference platform, with a tag free of collisions

    The tag is a serialisation of the license from which every field can
    be read back: numbers in binary with an end mark, strings and arrays
    behind their length. *)

Fixpoint enc_pos (p : positive) : string :=
  match p with
  | xH => "."
  | xO q => String "0" (enc_pos q)
  | xI q => String "1" (enc_pos q)
  end.

Definition enc_Z (z : Z) : string :=
  match z with
  | Z0 => "z"
  | Zpos p => String "+" (enc_pos p)
  | Zneg p => String "-" (enc_pos p)
  end.

Definition enc_nat (n : nat) : string := enc_pos (Pos.of_succ_nat n).

Definition enc_string (s : string) : string := enc_nat (String.length s) ++ s.

Fixpoint enc_items (l : list string) : string :=
  match l with
  | [] => ""
  | x :: rest => enc_string x ++ enc_items rest
  end.

Definition enc_list (l : list string) : string := enc_nat (List.length l) ++ enc_items l.

Definition enc_expiry (o : option Z) : string :=
  match o with
  | None => "n"
  | Some z => String "s" (enc_Z z)
  end.

Definition enc_tier (t : Tier) : string :=
  match t with
  | free => "f" | student => "s" | pro => "p" | lifetime => "l"
  end.

Definition lossless_hash (l : License) : string :=
  String "t"
    (enc_string (key l) ++ enc_string (email l) ++ enc_string (deviceId l)
     ++ enc_Z (activatedAt l) ++ enc_expiry (expiresAt l) ++ enc_Z (maxDevices l)
     ++ enc_list (currentDevices l) ++ enc_tier (tier l) ++ enc_list (features l)
     ++ ";").

(** An encoder after whose output the rest of the text can be read. *)
Definition decodable {A : Type} (enc : A -> string) : Prop :=
  forall (a b : A) (r r' : string), enc a ++ r = enc b ++ r' -> a = b /\ r = r'.

Definition Lossless : Crypto :=
  {| cipher := option License;
     sha256_hex := fun s => "sha256(" ++ s ++ ")";
     encryptData := fun l => Some l;
     decryptData := fun c => c;
     hashData := lossless_hash |}.

(** [yearly_license] with [maxDevices] raised to 99. *)
Definition raised_limit : License :=
  {| key := key yearly_license;
     email := email yearly_license;
     deviceId := deviceId yearly_license;
     activatedAt := activatedAt yearly_license;
     expiresAt := expiresAt yearly_license;
     maxDevices := 99;
     currentDevices := currentDevices yearly_license;
     tier := tier yearly_license;
     features := features yearly_license |}.

(** The profile of machine [A] after an offline edit: the payload is
    re-encrypted as [raised_limit] and the tag of [yearly_license] is left
    as it was. *)
Definition edited : @Storage Lossless :=
  {| chapterflash_device := Some (machine "A");
     chapterflash_license := Some (@encryptData Lossless raised_limit);
     chapterflash_license_hash := Some (@hashData Lossless yearly_license);
     chapterflash_activation_date := Some "1970-01-01T00:00:00.000Z" |}.

(** A limiter after five allowed calls a second apart and a sixth, denied
    one. *)
Definition blocked_limiter : RateLimiter :=
  snd (canProceed "x" (Some 5) 5000
         (snd (run_calls "x" (Some 5) [0; 1000; 2000; 3000; 4000] new_RateLimiter))).

(** Fifteen calls made by a script within the millisecond 7000. *)
Definition burst : RateLimiter := history "api_call" (repeat 7000 15).

(** * Properties *)

(** ** Fingerprint engine and identity store *)

Lemma string_app_assoc : forall a b c : string, (a ++ b) ++ c = a ++ b ++ c.
Proof.
  induction a as [| x a IH]; intros b c; simpl.
  - reflexivity.
  - now rewrite IH.
Qed.

(** The loop counter of [calculateSimilarity] never exceeds the number of
    keys visited. *)
Lemma count_loop_bounds :
  forall (p : string -> bool) (ks : list string) (acc : Z),
    acc <= fold_left (fun m k => if p k then m + 1 else m) ks acc
        <= acc + Z.of_nat (List.length ks).
Proof.
  intros p ks; induction ks as [| k ks IH]; intros acc.
  - simpl. lia.
  - cbn [fold_left List.length]. destruct (p k).
    + specialize (IH (acc + 1)). lia.
    + specialize (IH acc). lia.
Qed.

Lemma count_matches_bounds :
  forall a b : JS.object,
    0 <= count_matches a b <= Z.of_nat (List.length (JS.keys a)).
Proof.
  intros a b. unfold count_matches.
  apply (count_loop_bounds (fun k => JS.strict_eq (JS.get a k) (JS.get b k)) (JS.keys a) 0).
Qed.

(** The comparison [similarityScore > 0.8], cleared of the division. *)
Lemma similarity_gt_80 :
  forall a b : JS.object,
    JS.gtb (calculateSimilarity a b) (8 # 10) = true
    <-> 8 * Z.of_nat (List.length (JS.keys a)) < 10 * count_matches a b.
Proof.
  intros a b. unfold calculateSimilarity, JS.div.
  pose proof (count_matches_bounds a b) as Hb.
  destruct (Z.eqb_spec (Z.of_nat (List.length (JS.keys a))) 0) as [Hz | Hnz].
  - assert (count_matches a b = 0) as -> by lia.
    rewrite Hz. simpl. split; [discriminate | lia].
  - unfold JS.gtb. rewrite negb_true_iff.
    rewrite <- not_true_iff_false, Qle_bool_iff.
    unfold Qle. cbn [Qnum Qden].
    rewrite Z2Pos.id by lia. lia.
Qed.

(** C1 (as the code has it): against a stored record, [verifyDevice]
    answers true exactly when the similarity of the stored and the fresh
    components is strictly greater than 0.8, that is when
    [10 * matches > 8 * keys]; a pair agreeing on exactly 8 of 10, or on 7
    of 10, keys is refused and one agreeing on 9 of 10 is accepted. *)
Theorem verifyDevice_threshold :
  forall (C : Crypto) (env : Env) (now : Z) (st : Storage) (existing : DeviceFingerprint),
    chapterflash_device st = Some existing ->
    (fst (verifyDevice env now st) = true
     <-> exists q : Q,
           calculateSimilarity (fp_components existing)
             (fp_components (getDeviceFingerprint env now)) = JS.Finite q
           /\ (8 # 10 < q)%Q)
    /\ (fst (verifyDevice env now st) = true
        <-> 8 * Z.of_nat (List.length (JS.keys (fp_components existing)))
            < 10 * count_matches (fp_components existing)
                     (fp_components (getDeviceFingerprint env now)))
    /\ (Z.of_nat (List.length (JS.keys (fp_components existing))) = 10 ->
        forall m : Z,
          count_matches (fp_components existing)
            (fp_components (getDeviceFingerprint env now)) = m ->
          (m = 7 \/ m = 8 -> fst (verifyDevice env now st) = false)
          /\ (m = 9 -> fst (verifyDevice env now st) = true)).
Proof.
  intros C env now st existing Hdev.
  assert (fst (verifyDevice env now st)
          = JS.gtb (calculateSimilarity (fp_components existing)
                      (fp_components (getDeviceFingerprint env now))) (8 # 10)) as Hv.
  { unfold verifyDevice. rewrite Hdev. reflexivity. }
  rewrite Hv. clear Hv.
  pose proof (similarity_gt_80 (fp_components existing)
                (fp_components (getDeviceFingerprint env now))) as Hint.
  split; [| split].
  - split.
    + intros Hgt.
      destruct (calculateSimilarity (fp_components existing)
                  (fp_components (getDeviceFingerprint env now))) as [| | q] eqn:Hsim.
      * discriminate.
      * exfalso. unfold calculateSimilarity, JS.div in Hsim.
        pose proof (count_matches_bounds (fp_components existing)
                      (fp_components (getDeviceFingerprint env now))) as Hb.
        destruct (Z.eqb_spec (Z.of_nat (List.length (JS.keys (fp_components existing)))) 0);
          [| discriminate].
        destruct (Z.eqb_spec (count_matches (fp_components existing)
                                (fp_components (getDeviceFingerprint env now))) 0);
          [discriminate | lia].
      * exists q. split; [reflexivity |].
        simpl in Hgt. rewrite negb_true_iff, <- not_true_iff_false, Qle_bool_iff in Hgt.
        now apply Qnot_le_lt.
    + intros [q [Hsim Hlt]]. rewrite Hsim. simpl.
      rewrite negb_true_iff, <- not_true_iff_false, Qle_bool_iff.
      now apply Qlt_not_le.
  - exact Hint.
  - intros Hlen m Hm. rewrite Hlen, Hm in Hint. split.
    + intros Hcase.
      destruct (JS.gtb _ _) eqn:Hg; [| reflexivity].
      exfalso. destruct Hint as [Hint _]. specialize (Hint eq_refl). lia.
    + intros ->. apply Hint. lia.
Qed.

(** The stored record of [registered] against a capture in which one
    reading of ten has moved: accepted. *)
Lemma verifyDevice_threshold_witness :
  fst (@verifyDevice Plain (drifted 1) 2000 registered) = true
  <-> 8 * Z.of_nat (List.length (JS.keys (JS.json_roundtrip (capture_components desktop))))
      < 10 * count_matches (JS.json_roundtrip (capture_components desktop))
               (capture_components (drifted 1)).
Proof.
  exact (proj1 (proj2 (verifyDevice_threshold Plain (drifted 1) 2000 registered
                         (persisted (@getDeviceFingerprint Plain desktop 1000)) eq_refl))).
Defined.

(** C1, as stated, fails: the stored record has ten keys, the fresh
    capture agrees with it on exactly eight of them, the similarity is
    exactly 0.8 (so it is [>= 0.8]) and [verifyDevice] answers false. *)
Lemma verifyDevice_refuses_exact_80_percent :
  chapterflash_device registered = Some (persisted (@getDeviceFingerprint Plain desktop 1000))
  /\ List.length (JS.keys (JS.json_roundtrip (capture_components desktop))) = 10%nat
  /\ count_matches (JS.json_roundtrip (capture_components desktop))
       (capture_components (drifted 2)) = 8
  /\ calculateSimilarity (JS.json_roundtrip (capture_components desktop))
       (capture_components (drifted 2)) = JS.Finite (8 # 10)
  /\ JS.geb (calculateSimilarity (JS.json_roundtrip (capture_components desktop))
               (capture_components (drifted 2))) (8 # 10) = true
  /\ fst (@verifyDevice Plain (drifted 2) 2000 registered) = false.
Proof.
  repeat split; vm_compute; reflexivity.
Qed.

(** C7: the id of a capture is the SHA-256 digest of the composite string
    of its components, the eleven [key:value] pairs in source order joined
    by [|]; two captures with the same components, whenever taken, have the
    same id. *)
Theorem fingerprint_id_deterministic :
  forall (C : Crypto) (env1 env2 : Env) (now1 now2 : Z),
    fp_components (getDeviceFingerprint env1 now1)
    = fp_components (getDeviceFingerprint env2 now2) ->
    fp_id (getDeviceFingerprint env1 now1) = fp_id (getDeviceFingerprint env2 now2)
    /\ fp_id (getDeviceFingerprint env1 now1)
       = sha256_hex (compositeString (fp_components (getDeviceFingerprint env1 now1)))
    /\ compositeString (fp_components (getDeviceFingerprint env1 now1))
       = "canvas:" ++ env_canvas env1
         ++ "|userAgent:" ++ env_userAgent env1
         ++ "|language:" ++ env_language env1
         ++ "|timezone:" ++ env_timezone env1
         ++ "|screen:" ++ JS.to_string (JS.Number (env_screen_width env1))
         ++ "x" ++ JS.to_string (JS.Number (env_screen_height env1))
         ++ "x" ++ JS.to_string (JS.Number (env_colorDepth env1))
         ++ "|colorDepth:" ++ JS.to_string (JS.Number (env_colorDepth env1))
         ++ "|platform:" ++ env_platform env1
         ++ "|hardwareConcurrency:"
         ++ JS.to_string (number_or (env_hardwareConcurrency env1) (JS.Number 0))
         ++ "|deviceMemory:"
         ++ JS.to_string (number_or (env_deviceMemory env1) JS.Undefined)
         ++ "|touchSupport:" ++ (if env_touchSupport env1 then "true" else "false")
         ++ "|vendor:" ++ env_vendor env1.
Proof.
  intros C env1 env2 now1 now2 Hc.
  split; [| split].
  - unfold getDeviceFingerprint in *. cbn [fp_id fp_components] in *.
    now rewrite Hc.
  - reflexivity.
  - unfold getDeviceFingerprint, capture_components, compositeString.
    cbn [fp_components map fst snd String.concat].
    cbn [JS.to_string].
    repeat rewrite string_app_assoc.
    cbn [append].
    destruct (env_touchSupport env1); reflexivity.
Qed.

(** Two captures of [desktop], a second apart. *)
Lemma fingerprint_id_deterministic_witness :
  fp_id (@getDeviceFingerprint Plain desktop 1000)
  = fp_id (@getDeviceFingerprint Plain desktop 2000).
Proof.
  exact (proj1 (fingerprint_id_deterministic Plain desktop desktop 1000 2000 eq_refl)).
Defined.

(** C9 (as the code has it): [registerDevice] persists the fresh capture,
    and with it the capture time, when no record is stored or the stored id
    equals the fresh one, and leaves the record alone on a mismatch;
    [verifyDevice] persists the fresh capture only on first use, and a
    verification against a stored record, whatever its answer, leaves the
    storage as it was. *)
Theorem capture_time_persisted :
  forall (C : Crypto) (env : Env) (now : Z) (st : Storage),
    (chapterflash_device st = None ->
     registerDevice env now st
     = (true, set_device (persisted (getDeviceFingerprint env now)) st))
    /\ (forall existing : DeviceFingerprint,
          chapterflash_device st = Some existing ->
          (fp_id existing = fp_id (getDeviceFingerprint env now) ->
           registerDevice env now st
           = (false, set_device (persisted (getDeviceFingerprint env now)) st))
          /\ (fp_id existing <> fp_id (getDeviceFingerprint env now) ->
              registerDevice env now st = (false, st))
          /\ snd (verifyDevice env now st) = st)
    /\ (chapterflash_device st = None ->
        verifyDevice env now st
        = (true, set_device (persisted (getDeviceFingerprint env now)) st))
    /\ option_map fp_timestamp
         (chapterflash_device (set_device (persisted (getDeviceFingerprint env now)) st))
       = Some now.
Proof.
  intros C env now st. repeat split.
  - intros Hnone. unfold registerDevice. now rewrite Hnone.
  - intros Hid. unfold registerDevice. rewrite H.
    apply String.eqb_eq in Hid. now rewrite Hid.
  - intros Hid. unfold registerDevice. rewrite H.
    apply String.eqb_neq in Hid. now rewrite Hid.
  - unfold verifyDevice. now rewrite H.
  - intros Hnone. unfold verifyDevice. rewrite Hnone.
    unfold bind, ret, registerDevice. now rewrite Hnone.
Qed.

(** C9, as stated, fails for [verifyDevice]: a verification at time 2000
    of the unchanged machine succeeds and the stored record still carries
    the capture time 1000 of its registration. *)
Lemma verifyDevice_keeps_old_timestamp :
  option_map fp_timestamp (chapterflash_device registered) = Some 1000
  /\ fst (@verifyDevice Plain desktop 2000 registered) = true
  /\ option_map fp_timestamp
       (chapterflash_device (snd (@verifyDevice Plain desktop 2000 registered)))
     = Some 1000
  /\ snd (@verifyDevice Plain desktop 2000 registered) = registered.
Proof.
  repeat split; vm_compute; reflexivity.
Qed.

(** ** License manager *)

Lemma Plain_laws : CryptoLaws Plain.
Proof.
  split.
  - reflexivity.
  - intros l. unfold hashData, Plain, plain_hash. simpl. discriminate.
Qed.

Lemma same_license_refl : forall (C : Crypto) (st : Storage), same_license st st.
Proof. intros; split; reflexivity. Qed.

Lemma same_license_set_device :
  forall (C : Crypto) (d : DeviceFingerprint) (st : Storage),
    same_license st (set_device d st).
Proof. intros; split; reflexivity. Qed.

Lemma stored_license_same :
  forall (C : Crypto) (st st' : Storage),
    same_license st st' -> stored_license st' = stored_license st.
Proof.
  intros C st st' [Hl Hh]. unfold stored_license, getStoredLicense.
  rewrite Hl, Hh.
  destruct (chapterflash_license st) as [enc |]; [| reflexivity].
  destruct (chapterflash_license_hash st) as [tag |]; [| reflexivity].
  destruct (String.eqb tag ""); [reflexivity |].
  destruct (decryptData enc) as [l |]; [| reflexivity].
  destruct (negb (String.eqb (hashData l) tag)); reflexivity.
Qed.

Lemma getDeviceId_same_license :
  forall (C : Crypto) (env : Env) (now : Z) (st : Storage),
    same_license st (snd (getDeviceId env now st)).
Proof.
  intros C env now st. unfold getDeviceId.
  destruct (chapterflash_device st); [apply same_license_refl | apply same_license_set_device].
Qed.

Lemma registerDevice_same_license :
  forall (C : Crypto) (env : Env) (now : Z) (st : Storage),
    same_license st (snd (registerDevice env now st)).
Proof.
  intros C env now st. unfold registerDevice.
  destruct (chapterflash_device st) as [d |]; [| apply same_license_set_device].
  destruct (negb _); [apply same_license_refl | apply same_license_set_device].
Qed.

Lemma verifyDevice_same_license :
  forall (C : Crypto) (env : Env) (now : Z) (st : Storage),
    same_license st (snd (verifyDevice env now st)).
Proof.
  intros C env now st. unfold verifyDevice.
  destruct (chapterflash_device st) as [d |] eqn:Hd.
  - apply same_license_refl.
  - unfold bind, ret. pose proof (registerDevice_same_license C env now st) as H.
    destruct (registerDevice env now st) as [b st']. exact H.
Qed.

(** A successful load has no effect on the storage. *)
Lemma getStoredLicense_Some :
  forall (C : Crypto) (st st' : Storage) (l : License),
    getStoredLicense st = (Some l, st') -> st' = st.
Proof.
  intros C st st' l. unfold getStoredLicense.
  destruct (chapterflash_license st) as [enc |]; [| discriminate].
  destruct (chapterflash_license_hash st) as [tag |]; [| discriminate].
  destruct (String.eqb tag ""); [discriminate |].
  destruct (decryptData enc) as [l0 |]; [| discriminate].
  destruct (negb (String.eqb (hashData l0) tag)).
  - unfold bind, ret, revokeLicense. discriminate.
  - congruence.
Qed.

Lemma getStoredLicense_stored :
  forall (C : Crypto) (st : Storage) (l : License),
    stored_license st = Some l -> getStoredLicense st = (Some l, st).
Proof.
  intros C st l H. unfold stored_license in H.
  destruct (getStoredLicense st) as [o st'] eqn:E. simpl in H. subst o.
  now rewrite (getStoredLicense_Some C st st' l E).
Qed.

(** A failed load leaves a storage from which the next load fails too, and
    does not touch the identity record. *)
Lemma getStoredLicense_None :
  forall (C : Crypto) (st : Storage),
    stored_license st = None ->
    stored_license (snd (getStoredLicense st)) = None
    /\ chapterflash_device (snd (getStoredLicense st)) = chapterflash_device st.
Proof.
  intros C st. unfold stored_license at 1 2. unfold getStoredLicense.
  destruct (chapterflash_license st) as [enc |] eqn:He;
    [| intros _; simpl; rewrite He; auto].
  destruct (chapterflash_license_hash st) as [tag |] eqn:Ht;
    [| intros _; simpl; rewrite He, Ht; auto].
  destruct (String.eqb tag "") eqn:Hempty;
    [intros _; simpl; rewrite He, Ht, Hempty; auto |].
  destruct (decryptData enc) as [l0 |] eqn:Hd;
    [| intros _; simpl; rewrite He, Ht, Hempty, Hd; auto].
  destruct (negb (String.eqb (hashData l0) tag)) eqn:Hh.
  - intros _. unfold bind, ret, revokeLicense. simpl. auto.
  - discriminate.
Qed.

Section WithLaws.

Context {C : Crypto} {L : CryptoLaws C}.

(** What [storeLicense] writes is what the next load returns. *)
Lemma stored_license_storeLicense :
  forall (l : License) (st : Storage),
    stored_license (snd (storeLicense l st)) = Some l.
Proof.
  intros l st. unfold stored_license, getStoredLicense, storeLicense. simpl.
  destruct (String.eqb_spec (hashData l) "") as [He | _].
  - now apply hashData_nonempty in He.
  - rewrite decrypt_encrypt. now rewrite String.eqb_refl.
Qed.

End WithLaws.

Lemma includes_In :
  forall (l : list string) (x : string), includes l x = true <-> In x l.
Proof.
  intros l x. unfold includes. rewrite existsb_exists. split.
  - intros [y [Hin Heq]]. apply String.eqb_eq in Heq. now subst.
  - intros Hin. exists x. split; [assumption | apply String.eqb_refl].
Qed.

Lemma includes_not_In :
  forall (l : list string) (x : string), ~ In x l -> includes l x = false.
Proof.
  intros l x Hn. destruct (includes l x) eqn:E; [| reflexivity].
  apply includes_In in E. contradiction.
Qed.

(** [checkLicense] on a license that has not expired, by cases. *)
Lemma checkLicense_cases :
  forall (C : Crypto) (l : License) (env : Env) (now : Z) (st : Storage),
    expired l now = false ->
    checkLicense l env now st
    = if includes (currentDevices l) (fst (getDeviceId env now st))
      then (valid_result l now, snd (getDeviceId env now st))
      else if Z.geb (Z.of_nat (List.length (currentDevices l))) (maxDevices l)
           then (device_limit_error l, snd (getDeviceId env now st))
           else (valid_result
                   (with_currentDevices l
                      (currentDevices l ++ [fst (getDeviceId env now st)])%list) now,
                 snd (storeLicense
                        (with_currentDevices l
                           (currentDevices l ++ [fst (getDeviceId env now st)])%list)
                        (snd (getDeviceId env now st)))).
Proof.
  intros C l env now st Hexp. unfold checkLicense. rewrite Hexp.
  unfold bind, ret. destruct (getDeviceId env now st) as [dev st1]. simpl.
  destruct (includes (currentDevices l) dev); simpl; [reflexivity |].
  destruct (Z.geb _ _); reflexivity.
Qed.

Lemma demo_shape_not_expired :
  forall (l : License) (now : Z), demo_shape l -> expired l now = false.
Proof.
  intros l now [He _]. unfold expired. now rewrite He.
Qed.

(** The id [getDeviceId] returns depends on the identity record alone, and
    asking again returns the same id. *)
Lemma getDeviceId_device :
  forall (C : Crypto) (env : Env) (now : Z) (st st' : Storage),
    chapterflash_device st' = chapterflash_device st ->
    fst (getDeviceId env now st') = fst (getDeviceId env now st).
Proof.
  intros C env now st st' H. unfold getDeviceId. rewrite H.
  destruct (chapterflash_device st); reflexivity.
Qed.

Lemma getDeviceId_again :
  forall (C : Crypto) (env : Env) (now : Z) (st st' : Storage),
    chapterflash_device st' = chapterflash_device (snd (getDeviceId env now st)) ->
    getDeviceId env now st' = (fst (getDeviceId env now st), st').
Proof.
  intros C env now st st' H. unfold getDeviceId in *.
  destruct (chapterflash_device st) as [d |] eqn:Hd; simpl in H; rewrite H, ?Hd; reflexivity.
Qed.

Section LicenseInvariant.

Context {C : Crypto} {L : CryptoLaws C}.

Lemma checkLicense_inv :
  forall (l : License) (env : Env) (now : Z) (st : Storage),
    demo_shape l -> stored_license st = Some l ->
    license_inv (snd (checkLicense l env now st)).
Proof.
  intros l env now st Hshape Hst.
  rewrite checkLicense_cases by now apply demo_shape_not_expired.
  pose proof (stored_license_same C _ _ (getDeviceId_same_license C env now st)) as Hsame.
  destruct (includes _ _); cbn [snd].
  - intros l0 H0. rewrite Hsame, Hst in H0. now inversion H0; subst.
  - destruct (Z.geb_spec (Z.of_nat (List.length (currentDevices l))) (maxDevices l))
      as [Hge | Hlt]; cbn [snd].
    + intros l0 H0. rewrite Hsame, Hst in H0. now inversion H0; subst.
    + intros l0 H0. rewrite stored_license_storeLicense in H0.
      inversion H0; subst l0. destruct Hshape as [He [Hm Hlen]].
      unfold demo_shape. simpl. rewrite length_app. simpl.
      repeat split; try assumption. lia.
Qed.

Lemma validateLicense_inv :
  forall (licenseKey : option string) (env : Env) (now : Z) (st : Storage),
    license_inv st -> license_inv (snd (validateLicense licenseKey env now st)).
Proof.
  intros licenseKey env now st Hinv. unfold validateLicense, bind.
  destruct (getStoredLicense st) as [[l |] st1] eqn:E.
  - pose proof (getStoredLicense_Some C _ _ _ E). subst st1.
    assert (stored_license st = Some l) as Hst by (unfold stored_license; now rewrite E).
    apply checkLicense_inv; [now apply Hinv | assumption].
  - assert (stored_license st = None) as Hst by (unfold stored_license; now rewrite E).
    destruct (getStoredLicense_None C st Hst) as [Hnone _]. rewrite E in Hnone. simpl in Hnone.
    assert (license_inv st1) as Hinv1.
    { intros l0 H0. rewrite Hnone in H0. discriminate. }
    destruct licenseKey as [k |]; [| exact Hinv1].
    destruct (String.eqb k ""); [exact Hinv1 |].
    destruct (negb (isValidLicenseFormat k)); [exact Hinv1 |].
    destruct (getDeviceId env now st1) as [dev st2]. unfold ret.
    destruct (storeLicense (demo_license k dev now) st2) as [u st3] eqn:Es.
    apply checkLicense_inv.
    + unfold demo_shape. simpl. repeat split; lia.
    + replace st3 with (snd (storeLicense (demo_license k dev now) st2))
        by now rewrite Es.
      apply stored_license_storeLicense.
Qed.

Lemma deactivateDevice_stored :
  forall (env : Env) (now : Z) (st : Storage) (l : License),
    stored_license st = Some l ->
    deactivateDevice env now st
    = (true,
       snd (storeLicense
              (with_currentDevices l
                 (filter (fun id => negb (String.eqb id (fst (getDeviceId env now st))))
                    (currentDevices l)))
              (snd (getDeviceId env now st)))).
Proof.
  intros env now st l Hst. unfold deactivateDevice, bind, ret.
  rewrite (getStoredLicense_stored C st l Hst).
  destruct (getDeviceId env now st) as [dev st1]. reflexivity.
Qed.

Lemma deactivateDevice_inv :
  forall (env : Env) (now : Z) (st : Storage),
    license_inv st -> license_inv (snd (deactivateDevice env now st)).
Proof.
  intros env now st Hinv.
  destruct (stored_license st) as [l |] eqn:Hst.
  - rewrite (deactivateDevice_stored env now st l Hst). cbn [snd].
    intros l0 H0. rewrite stored_license_storeLicense in H0.
    inversion H0; subst l0. destruct (Hinv l Hst) as [He [Hm Hlen]].
    unfold demo_shape. simpl. repeat split; try assumption.
    pose proof (filter_length_le
                  (fun id => negb (String.eqb id (fst (getDeviceId env now st))))
                  (currentDevices l)).
    lia.
  - unfold deactivateDevice, bind, ret.
    destruct (getStoredLicense_None C st Hst) as [Hnone _].
    unfold stored_license in Hst.
    destruct (getStoredLicense st) as [o st1]. simpl in *. subst o.
    simpl. intros l0 H0. rewrite Hnone in H0. discriminate.
Qed.

Lemma reachable_inv : forall st : Storage, reachable st -> license_inv st.
Proof.
  intros st Hr. induction Hr as [| st k env now _ IH | st env now _ IH | st _ IH
                                | st env now _ IH | st env now _ IH | st d _ IH].
  - intros l H. discriminate.
  - now apply validateLicense_inv.
  - now apply deactivateDevice_inv.
  - intros l H. discriminate.
  - intros l H. rewrite (stored_license_same C _ _ (registerDevice_same_license C env now st)) in H.
    now apply IH.
  - intros l H. rewrite (stored_license_same C _ _ (verifyDevice_same_license C env now st)) in H.
    now apply IH.
  - intros l H. rewrite (stored_license_same C _ _ (same_license_set_device C d st)) in H.
    now apply IH.
Qed.

End LicenseInvariant.

(** [validateLicense] when a license is stored: the activation branch is
    skipped. *)
Lemma validateLicense_stored :
  forall (C : Crypto) (licenseKey : option string) (env : Env) (now : Z)
         (st : Storage) (l : License),
    stored_license st = Some l ->
    validateLicense licenseKey env now st = checkLicense l env now st.
Proof.
  intros C licenseKey env now st l Hst. unfold validateLicense, bind.
  now rewrite (getStoredLicense_stored C st l Hst).
Qed.

(** [validateLicense(key)] with a well-formed key when no license loads:
    the demo license is built for the current device, stored, and found
    valid. *)
Lemma validateLicense_activate :
  forall (C : Crypto) (k : string) (env : Env) (now : Z) (st : Storage),
    stored_license st = None ->
    k <> "" ->
    isValidLicenseFormat k = true ->
    validateLicense (Some k) env now st
    = (valid_result (demo_license k (fst (getDeviceId env now st)) now) now,
       snd (storeLicense (demo_license k (fst (getDeviceId env now st)) now)
              (snd (getDeviceId env now (snd (getStoredLicense st)))))).
Proof.
  intros C k env now st Hst Hk Hfmt.
  destruct (getStoredLicense_None C st Hst) as [_ Hdev].
  pose proof (getDeviceId_device C env now st _ Hdev) as Hsame.
  unfold validateLicense, bind. unfold stored_license in Hst.
  destruct (getStoredLicense st) as [o st1]. cbn [fst snd] in Hst, Hdev, Hsame |- *. subst o.
  apply String.eqb_neq in Hk. rewrite Hk, Hfmt. cbn [negb].
  rewrite <- Hsame.
  destruct (getDeviceId env now st1) as [dev st2] eqn:Eid. cbn [fst snd].
  unfold ret.
  destruct (storeLicense (demo_license k dev now) st2) as [u st3] eqn:Es. cbn [snd].
  rewrite checkLicense_cases by reflexivity.
  assert (getDeviceId env now st3 = (dev, st3)) as Hagain.
  { replace dev with (fst (getDeviceId env now st1)) by now rewrite Eid.
    apply getDeviceId_again. rewrite Eid. cbn [snd].
    unfold storeLicense in Es. now inversion Es. }
  rewrite Hagain. cbn [fst snd].
  assert (includes (currentDevices (demo_license k dev now)) dev = true) as ->.
  { apply includes_In. simpl. now left. }
  reflexivity.
Qed.

(** C3: in every storage the modules can reach, the stored license lists
    at most [maxDevices] devices.  Activation stores a license listing
    exactly the activating device; a validation from a device that is not
    listed appends it when a slot is free, and otherwise answers with the
    device-limit error and leaves license and tag as they were;
    deactivation stores the list filtered, so it only removes. *)
Theorem device_slots_bounded :
  forall (C : Crypto) (L : CryptoLaws C) (st : Storage),
    reachable st ->
    (forall l : License,
        stored_license st = Some l ->
        Z.of_nat (List.length (currentDevices l)) <= maxDevices l)
    /\ (forall (k : string) (env : Env) (now : Z),
          stored_license st = None -> k <> "" -> isValidLicenseFormat k = true ->
          exists l : License,
            stored_license (snd (validateLicense (Some k) env now st)) = Some l
            /\ currentDevices l = [fst (getDeviceId env now st)])
    /\ (forall (l : License) (licenseKey : option string) (env : Env) (now : Z),
          stored_license st = Some l ->
          ~ In (fst (getDeviceId env now st)) (currentDevices l) ->
          (Z.of_nat (List.length (currentDevices l)) < maxDevices l ->
           res_valid (fst (validateLicense licenseKey env now st)) = true
           /\ stored_license (snd (validateLicense licenseKey env now st))
              = Some (with_currentDevices l
                        (currentDevices l ++ [fst (getDeviceId env now st)])%list))
          /\ (maxDevices l <= Z.of_nat (List.length (currentDevices l)) ->
              fst (validateLicense licenseKey env now st) = device_limit_error l
              /\ same_license st (snd (validateLicense licenseKey env now st))
              /\ stored_license (snd (validateLicense licenseKey env now st)) = Some l))
    /\ (forall (l : License) (env : Env) (now : Z),
          stored_license st = Some l ->
          exists l' : License,
            stored_license (snd (deactivateDevice env now st)) = Some l'
            /\ currentDevices l'
               = filter (fun id => negb (String.eqb id (fst (getDeviceId env now st))))
                   (currentDevices l)
            /\ incl (currentDevices l') (currentDevices l)
            /\ maxDevices l' = maxDevices l).
Proof.
  intros C L st Hreach.
  pose proof (reachable_inv st Hreach) as Hinv.
  split; [| split; [| split]].
  - intros l Hst. destruct (Hinv l Hst) as [_ [Hm Hlen]]. lia.
  - intros k env now Hst Hk Hfmt.
    rewrite (validateLicense_activate C k env now st Hst Hk Hfmt). cbn [snd].
    eexists. split; [apply stored_license_storeLicense | reflexivity].
  - intros l licenseKey env now Hst Hnotin.
    rewrite (validateLicense_stored C licenseKey env now st l Hst).
    rewrite checkLicense_cases by (apply demo_shape_not_expired; now apply Hinv).
    rewrite (includes_not_In _ _ Hnotin).
    pose proof (getDeviceId_same_license C env now st) as Hsame.
    split.
    + intros Hlt.
      destruct (Z.geb_spec (Z.of_nat (List.length (currentDevices l))) (maxDevices l));
        [lia |].
      cbn [fst snd]. split; [reflexivity | apply stored_license_storeLicense].
    + intros Hge.
      destruct (Z.geb_spec (Z.of_nat (List.length (currentDevices l))) (maxDevices l));
        [| lia].
      cbn [fst snd]. repeat split; try apply Hsame.
      now rewrite (stored_license_same C _ _ Hsame).
  - intros l env now Hst.
    rewrite (deactivateDevice_stored env now st l Hst). cbn [snd].
    eexists. split; [apply stored_license_storeLicense |].
    cbn [currentDevices with_currentDevices maxDevices].
    repeat split. apply incl_filter.
Qed.

Lemma activated_reachable : @reachable Plain activated.
Proof.
  unfold activated, registered.
  apply reach_validate, reach_register, reach_empty.
Qed.

(** The storage right after activation holds a license with one of its
    three slots taken. *)
Lemma device_slots_bounded_witness :
  Z.of_nat (List.length (currentDevices activated_license)) <= maxDevices activated_license.
Proof.
  exact (proj1 (device_slots_bounded Plain Plain_laws activated activated_reachable)
           activated_license eq_refl).
Defined.

(** C4 (as the code has it): whenever [validateLicense] answers valid, the
    license it returns is the stored one and lists the validating device,
    so its [currentDevices] is not empty; [deactivateDevice] keeps the
    license and stores it without the current device, which leaves an
    empty list when that device was the only one listed. *)
Theorem currentDevices_nonempty_when_valid :
  forall (C : Crypto) (L : CryptoLaws C) (licenseKey : option string)
         (env : Env) (now : Z) (st : Storage),
    (res_valid (fst (validateLicense licenseKey env now st)) = true ->
     exists l : License,
       res_license (fst (validateLicense licenseKey env now st)) = Some l
       /\ stored_license (snd (validateLicense licenseKey env now st)) = Some l
       /\ In (fst (getDeviceId env now st)) (currentDevices l)
       /\ currentDevices l <> [])
    /\ (forall l : License,
          stored_license st = Some l ->
          exists l' : License,
            stored_license (snd (deactivateDevice env now st)) = Some l'
            /\ ~ In (fst (getDeviceId env now st)) (currentDevices l')
            /\ (currentDevices l = [fst (getDeviceId env now st)] -> currentDevices l' = [])).
Proof.
  intros C L licenseKey env now st. split.
  2: {
    intros l Hst. rewrite (deactivateDevice_stored env now st l Hst). cbn [snd].
    eexists. split; [apply stored_license_storeLicense |].
    cbn [currentDevices with_currentDevices]. split.
    - intros Hin. apply filter_In in Hin. destruct Hin as [_ Hneq].
      now rewrite String.eqb_refl in Hneq.
    - intros ->. cbn [filter]. now rewrite String.eqb_refl. }
  intros Hvalid.
  assert (forall (l : License) (d : string), In d (currentDevices l) -> currentDevices l <> [])
    as Hne.
  { intros l d Hin Hnil. rewrite Hnil in Hin. contradiction. }
  destruct (stored_license st) as [l |] eqn:Hst.
  - rewrite (validateLicense_stored C licenseKey env now st l Hst) in *.
    destruct (expired l now) eqn:Hexp.
    + unfold checkLicense in Hvalid. rewrite Hexp in Hvalid. discriminate.
    + rewrite checkLicense_cases in * by assumption.
      pose proof (getDeviceId_same_license C env now st) as Hsame.
      destruct (includes (currentDevices l) (fst (getDeviceId env now st))) eqn:Hinc.
      * exists l. cbn [fst snd]. apply includes_In in Hinc.
        repeat split; try assumption.
        -- now rewrite (stored_license_same C _ _ Hsame).
        -- now apply (Hne l _ Hinc).
      * destruct (Z.geb _ _); [discriminate |].
        eexists. cbn [fst snd].
        split; [reflexivity |]. split; [apply stored_license_storeLicense |].
        assert (In (fst (getDeviceId env now st))
                  (currentDevices l ++ [fst (getDeviceId env now st)])%list) as Hin
          by (apply in_or_app; right; now left).
        split; [exact Hin |].
        cbn [currentDevices with_currentDevices].
        intros Hnil. rewrite Hnil in Hin. contradiction.
  - destruct licenseKey as [k |].
    + destruct (String.eqb_spec k "") as [-> | Hk].
      { unfold validateLicense, bind in Hvalid.
        destruct (getStoredLicense st) as [[l |] st1] eqn:E.
        - unfold stored_license in Hst. rewrite E in Hst. discriminate.
        - discriminate. }
      destruct (isValidLicenseFormat k) eqn:Hfmt.
      * rewrite (validateLicense_activate C k env now st Hst Hk Hfmt) in *.
        eexists. cbn [fst snd].
        split; [reflexivity |]. split; [apply stored_license_storeLicense |].
        cbn [currentDevices demo_license]. split; [now left | discriminate].
      * unfold validateLicense, bind in Hvalid.
        destruct (getStoredLicense st) as [[l |] st1] eqn:E.
        -- unfold stored_license in Hst. rewrite E in Hst. discriminate.
        -- apply String.eqb_neq in Hk. rewrite Hk, Hfmt in Hvalid. discriminate.
    + unfold validateLicense, bind in Hvalid.
      destruct (getStoredLicense st) as [[l |] st1] eqn:E.
      * unfold stored_license in Hst. rewrite E in Hst. discriminate.
      * discriminate.
Qed.

(** Activation on [registered]. *)
Lemma currentDevices_nonempty_when_valid_witness :
  exists l : License,
    res_license (fst (@validateLicense Plain (Some demo_key) desktop 5000 registered)) = Some l
    /\ @stored_license Plain (snd (@validateLicense Plain (Some demo_key) desktop 5000 registered))
       = Some l
    /\ In (fst (@getDeviceId Plain desktop 5000 registered)) (currentDevices l)
    /\ currentDevices l <> [].
Proof.
  exact (proj1 (currentDevices_nonempty_when_valid Plain Plain_laws (Some demo_key) desktop 5000
                  registered) eq_refl).
Defined.

(** C4, as stated, fails: activating and then deactivating on the same
    device is a reachable storage whose license is retained with an empty
    [currentDevices]. *)
Lemma deactivation_leaves_no_device :
  @reachable Plain deactivated
  /\ exists l : License,
       @stored_license Plain deactivated = Some l /\ currentDevices l = [].
Proof.
  split.
  - unfold deactivated. apply reach_deactivate, activated_reachable.
  - eexists. split; vm_compute; reflexivity.
Qed.

(** *** The tag of the second reference platform has no collisions *)

Lemma enc_pos_decodable : decodable enc_pos.
Proof.
  intros a. induction a as [a IH | a IH |]; intros [b | b |] r r' H;
    cbn [enc_pos String.append] in H; try discriminate;
    injection H as H; try (destruct (IH b r r' H) as [-> ->]); auto.
Qed.

Lemma enc_Z_decodable : decodable enc_Z.
Proof.
  intros [| a | a] [| b | b] r r' H; cbn [enc_Z String.append] in H; try discriminate;
    injection H as H; try (destruct (enc_pos_decodable a b r r' H) as [-> ->]); auto.
Qed.

Lemma enc_nat_decodable : decodable enc_nat.
Proof.
  intros a b r r' H. unfold enc_nat in H.
  destruct (enc_pos_decodable _ _ r r' H) as [Hp ->].
  split; [now apply SuccNat2Pos.inj | reflexivity].
Qed.

Lemma app_inv_length :
  forall s s' r r' : string,
    String.length s = String.length s' -> s ++ r = s' ++ r' -> s = s' /\ r = r'.
Proof.
  induction s as [| c s IH]; intros [| c' s'] r r' Hlen H;
    cbn [String.length String.append] in *; try discriminate; [auto |].
  injection H as -> H. injection Hlen as Hlen.
  destruct (IH s' r r' Hlen H) as [-> ->]. auto.
Qed.

Lemma enc_string_decodable : decodable enc_string.
Proof.
  intros a b r r' H. unfold enc_string in H. rewrite !string_app_assoc in H.
  destruct (enc_nat_decodable _ _ _ _ H) as [Hlen H'].
  now apply app_inv_length.
Qed.

Lemma enc_items_decodable :
  forall (l l' : list string) (r r' : string),
    List.length l = List.length l' ->
    enc_items l ++ r = enc_items l' ++ r' -> l = l' /\ r = r'.
Proof.
  induction l as [| x l IH]; intros [| x' l'] r r' Hlen H;
    cbn [List.length enc_items String.append] in *; try discriminate; [auto |].
  rewrite !string_app_assoc in H.
  destruct (enc_string_decodable _ _ _ _ H) as [-> H'].
  injection Hlen as Hlen.
  destruct (IH l' r r' Hlen H') as [-> ->]. auto.
Qed.

Lemma enc_list_decodable : decodable enc_list.
Proof.
  intros a b r r' H. unfold enc_list in H. rewrite !string_app_assoc in H.
  destruct (enc_nat_decodable _ _ _ _ H) as [Hlen H'].
  now apply enc_items_decodable.
Qed.

Lemma enc_expiry_decodable : decodable enc_expiry.
Proof.
  intros [a |] [b |] r r' H; cbn [enc_expiry String.append] in H; try discriminate;
    injection H as H; [destruct (enc_Z_decodable a b r r' H) as [-> ->] |]; auto.
Qed.

Lemma enc_tier_decodable : decodable enc_tier.
Proof.
  intros [] [] r r' H; cbn [enc_tier String.append] in H; try discriminate;
    injection H as H; auto.
Qed.

Lemma lossless_hash_injective :
  forall l l' : License, lossless_hash l = lossless_hash l' -> l = l'.
Proof.
  intros [k e d a x m c t f] [k' e' d' a' x' m' c' t' f'] H.
  unfold lossless_hash in H.
  cbn [key email deviceId activatedAt expiresAt maxDevices currentDevices tier features] in H.
  injection H as H.
  destruct (enc_string_decodable _ _ _ _ H) as [-> H1].
  destruct (enc_string_decodable _ _ _ _ H1) as [-> H2].
  destruct (enc_string_decodable _ _ _ _ H2) as [-> H3].
  destruct (enc_Z_decodable _ _ _ _ H3) as [-> H4].
  destruct (enc_expiry_decodable _ _ _ _ H4) as [-> H5].
  destruct (enc_Z_decodable _ _ _ _ H5) as [-> H6].
  destruct (enc_list_decodable _ _ _ _ H6) as [-> H7].
  destruct (enc_tier_decodable _ _ _ _ H7) as [-> H8].
  destruct (enc_list_decodable _ _ _ _ H8) as [-> _].
  reflexivity.
Qed.

Lemma Lossless_laws : CryptoLaws Lossless.
Proof.
  split.
  - reflexivity.
  - intros l. discriminate.
Qed.

Lemma Lossless_collision_free : CollisionFree Lossless.
Proof.
  split. exact lossless_hash_injective.
Qed.

Lemma field_mutated_neq :
  forall original mutated : License, field_mutated original mutated -> mutated <> original.
Proof.
  intros original mutated H Heq. subst mutated.
  unfold field_mutated in H. intuition congruence.
Qed.

(** C2 (as the code has it), for a tag without collisions: when the
    license slot decrypts to a payload that differs in some field from the
    license whose tag is stored, [getStoredLicense] finds the mismatch,
    revokes (license, tag and activation date are removed, the identity
    record stays) and returns [null]; [validateLicense()] then answers
    with the same "No license found" result it gives on a profile that
    never held a license, and [validateLicense(key)] with a well-formed
    key activates afresh on the revoked profile: the demo license of the
    key and the device is stored and returned as valid. *)
Theorem tampered_license_revoked :
  forall (C : Crypto) (L : CryptoLaws C) (F : CollisionFree C)
         (st : Storage) (encrypted : cipher) (original mutated : License)
         (env : Env) (now : Z),
    chapterflash_license st = Some encrypted ->
    decryptData encrypted = Some mutated ->
    chapterflash_license_hash st = Some (hashData original) ->
    field_mutated original mutated ->
    getStoredLicense st = (None, snd (revokeLicense st))
    /\ chapterflash_license (snd (revokeLicense st)) = None
    /\ chapterflash_license_hash (snd (revokeLicense st)) = None
    /\ chapterflash_activation_date (snd (revokeLicense st)) = None
    /\ chapterflash_device (snd (revokeLicense st)) = chapterflash_device st
    /\ validateLicense None env now st = (no_license_error, snd (revokeLicense st))
    /\ fst (validateLicense None env now empty_storage) = no_license_error
    /\ (forall k : string,
          k <> "" -> isValidLicenseFormat k = true ->
          validateLicense (Some k) env now st
          = (valid_result (demo_license k (fst (getDeviceId env now st)) now) now,
             snd (storeLicense (demo_license k (fst (getDeviceId env now st)) now)
                    (snd (getDeviceId env now (snd (revokeLicense st))))))
          /\ res_valid (fst (validateLicense (Some k) env now st)) = true
          /\ stored_license (snd (validateLicense (Some k) env now st))
             = Some (demo_license k (fst (getDeviceId env now st)) now)
          /\ chapterflash_activation_date (snd (validateLicense (Some k) env now st))
             = None).
Proof.
  intros C L F st encrypted original mutated env now Hl Hdec Hh Hmut.
  assert (hashData mutated <> hashData original) as Hneq.
  { intros Heq. apply hashData_injective in Heq.
    now apply (field_mutated_neq original mutated). }
  assert (getStoredLicense st = (None, snd (revokeLicense st))) as Hload.
  { unfold getStoredLicense. rewrite Hl, Hh.
    pose proof (hashData_nonempty original) as Hne.
    apply String.eqb_neq in Hne. rewrite Hne. rewrite Hdec.
    apply String.eqb_neq in Hneq. rewrite Hneq. reflexivity. }
  split; [exact Hload |].
  do 4 (split; [reflexivity |]).
  split; [unfold validateLicense, bind; rewrite Hload; reflexivity |].
  split; [reflexivity |].
  intros k Hk Hfmt.
  assert (validateLicense (Some k) env now st
          = (valid_result (demo_license k (fst (getDeviceId env now st)) now) now,
             snd (storeLicense (demo_license k (fst (getDeviceId env now st)) now)
                    (snd (getDeviceId env now (snd (revokeLicense st))))))) as Hact.
  { rewrite (validateLicense_activate C k env now st); [| | assumption..].
    - now rewrite Hload.
    - unfold stored_license. now rewrite Hload. }
  split; [exact Hact |]. rewrite Hact. cbn [fst snd].
  split; [reflexivity |].
  split; [apply stored_license_storeLicense |].
  unfold storeLicense, getDeviceId, revokeLicense. cbn [snd chapterflash_device].
  destruct (chapterflash_device st); reflexivity.
Qed.

(** The edited storage [edited]: [maxDevices] was raised, the load
    revokes and [validateLicense()] answers "No license found". *)
Lemma tampered_license_revoked_witness :
  @getStoredLicense Lossless edited = (None, snd (@revokeLicense Lossless edited))
  /\ @validateLicense Lossless None desktop 7000 edited
     = (no_license_error, snd (@revokeLicense Lossless edited)).
Proof.
  assert (field_mutated yearly_license raised_limit) as Hmut.
  { do 5 right. left. discriminate. }
  pose proof (tampered_license_revoked Lossless Lossless_laws Lossless_collision_free
                edited (Some raised_limit) yearly_license raised_limit desktop 7000
                eq_refl eq_refl eq_refl Hmut) as H.
  split; [exact (proj1 H) | exact (proj1 (proj2 (proj2 (proj2 (proj2 (proj2 H))))))].
Defined.

(** C2, as stated, fails in its last part: on the edited storage
    [tampered] the payload decrypts and its tag differs from the stored
    one, yet the caller of [validateLicense()] receives the very result of
    a profile that never held a license, and the caller of
    [validateLicense(key)] receives a valid result. *)
Lemma tampering_reported_as_no_license :
  (exists (l : License) (tag : string),
      option_map (@decryptData Plain) (chapterflash_license tampered) = Some (Some l)
      /\ chapterflash_license_hash tampered = Some tag
      /\ String.eqb (@hashData Plain l) tag = false)
  /\ fst (@validateLicense Plain None desktop 7000 tampered)
     = fst (@validateLicense Plain None desktop 7000 (@empty_storage Plain))
  /\ res_error (fst (@validateLicense Plain None desktop 7000 tampered))
     = Some "No license found. Please activate your license."
  /\ res_valid (fst (@validateLicense Plain (Some demo_key) desktop 7000 tampered)) = true.
Proof.
  split; [| repeat split; vm_compute; reflexivity].
  eexists. eexists. repeat split; vm_compute; reflexivity.
Qed.

(** C8 (as the code has it): when the license slot holds a text that
    [decryptData] rejects, [getStoredLicense] returns [null] through its
    [catch] block and the storage, stored license and tag included, stays
    as it was; [validateLicense()] answers "No license found" and
    [deactivateDevice()] answers false, both without touching the
    storage. *)
Theorem undecryptable_license_left_in_place :
  forall (C : Crypto) (st : Storage) (encrypted : cipher) (env : Env) (now : Z),
    chapterflash_license st = Some encrypted ->
    decryptData encrypted = None ->
    getStoredLicense st = (None, st)
    /\ validateLicense None env now st = (no_license_error, st)
    /\ deactivateDevice env now st = (false, st).
Proof.
  intros C st encrypted env now Hl Hdec.
  assert (getStoredLicense st = (None, st)) as Hload.
  { unfold getStoredLicense. rewrite Hl, Hdec.
    destruct (chapterflash_license_hash st) as [tag |]; [| reflexivity].
    destruct (String.eqb tag ""); reflexivity. }
  repeat split.
  - exact Hload.
  - unfold validateLicense, bind. now rewrite Hload.
  - unfold deactivateDevice, bind. now rewrite Hload.
Qed.

(** The storage [corrupted]. *)
Lemma undecryptable_license_left_in_place_witness :
  @getStoredLicense Plain corrupted = (None, corrupted).
Proof.
  exact (proj1 (undecryptable_license_left_in_place Plain corrupted None desktop 7000
                  eq_refl eq_refl)).
Defined.

(** C8, as stated, fails: the load of [corrupted] returns [null] with the
    stored license and tag still in place, whereas the load of [tampered]
    removes both. *)
Lemma decryption_failure_does_not_revoke :
  @decryptData Plain None = None
  /\ chapterflash_license corrupted = Some None
  /\ fst (@getStoredLicense Plain corrupted) = None
  /\ snd (@getStoredLicense Plain corrupted) = corrupted
  /\ chapterflash_license (snd (@getStoredLicense Plain corrupted)) <> None
  /\ chapterflash_license_hash (snd (@getStoredLicense Plain corrupted)) <> None
  /\ chapterflash_license (snd (@getStoredLicense Plain tampered)) = None
  /\ chapterflash_license_hash (snd (@getStoredLicense Plain tampered)) = None.
Proof.
  repeat split; vm_compute; (reflexivity || discriminate).
Qed.

(** ** Rate limiter *)

Lemma getActionLimit_positive : forall action : string, 0 < getActionLimit action.
Proof.
  intros action. unfold getActionLimit, FLASHCARD_LIMIT, API_LIMIT.
  repeat match goal with |- context [if ?b then _ else _] => destruct b end; lia.
Qed.

(** Settle the comparisons of timestamps that the hypotheses decide. *)
Ltac settle_comparisons :=
  repeat match goal with
         | |- context [Z.ltb ?a ?b] =>
             first [ replace (Z.ltb a b) with true by (symmetry; apply Z.ltb_lt; lia)
                   | replace (Z.ltb a b) with false by (symmetry; apply Z.ltb_ge; lia) ]
         | |- context [Z.geb ?a ?b] =>
             first [ replace (Z.geb a b) with true by (symmetry; apply Z.geb_le; lia)
                   | replace (Z.geb a b) with false
                       by (symmetry; rewrite Z.geb_leb; apply Z.leb_gt; lia) ]
         end.

Ltac step_limiter :=
  unfold canProceed, WINDOW_MS, BLOCK_DURATION;
  cbn [requests blocked blockUntil chapterflash_security_logs andb filter
       req_timestamp req_action req_count history map new_RateLimiter];
  rewrite ?String.eqb_refl;
  settle_comparisons;
  cbn [requests blocked blockUntil chapterflash_security_logs andb filter
       req_timestamp req_action req_count fold_left effective_limit Z.eqb app
       logSuspiciousActivity List.length Nat.ltb Nat.leb tl];
  rewrite ?String.eqb_refl;
  cbn [filter fold_left req_count Z.add Pos.add Pos.succ];
  settle_comparisons.

(** C5: with the explicit limit 5, five calls for one action inside a
    window of 60 seconds are allowed; the sixth is denied, sets the block
    flag and [blockUntil] to its own time plus five minutes, and logs the
    count 5; every call before [blockUntil] is denied and changes nothing;
    the first call at or after [blockUntil] clears the flag, drops the
    whole history, is allowed, and leaves exactly one retained event. *)
Theorem five_calls_then_block_then_reset :
  forall (x : string) (t1 t2 t3 t4 t5 t6 t7 : Z),
    t1 <= t2 -> t2 <= t3 -> t3 <= t4 -> t4 <= t5 -> t5 <= t6 ->
    t6 - t1 < WINDOW_MS ->
    t6 + BLOCK_DURATION <= t7 ->
    run_calls x (Some 5) [t1; t2; t3; t4; t5] new_RateLimiter
    = ([true; true; true; true; true], history x [t1; t2; t3; t4; t5])
    /\ canProceed x (Some 5) t6 (history x [t1; t2; t3; t4; t5])
       = (false,
          {| requests := requests (history x [t1; t2; t3; t4; t5]);
             blocked := true;
             blockUntil := t6 + BLOCK_DURATION;
             chapterflash_security_logs :=
               [ {| log_timestamp := t6; log_action := x; log_requestCount := 5 |} ] |})
    /\ (forall (t : Z) (action : string) (limit : option Z),
          t < t6 + BLOCK_DURATION ->
          canProceed action limit t
            (snd (canProceed x (Some 5) t6 (history x [t1; t2; t3; t4; t5])))
          = (false, snd (canProceed x (Some 5) t6 (history x [t1; t2; t3; t4; t5]))))
    /\ canProceed x (Some 5) t7
         (snd (canProceed x (Some 5) t6 (history x [t1; t2; t3; t4; t5])))
       = (true,
          {| requests := [ {| req_timestamp := t7; req_action := x; req_count := 1 |} ];
             blocked := false;
             blockUntil := t6 + BLOCK_DURATION;
             chapterflash_security_logs :=
               [ {| log_timestamp := t6; log_action := x; log_requestCount := 5 |} ] |})
    /\ List.length
         (requests
            (snd (canProceed x (Some 5) t7
                    (snd (canProceed x (Some 5) t6 (history x [t1; t2; t3; t4; t5]))))))
       = 1%nat.
Proof.
  intros x t1 t2 t3 t4 t5 t6 t7 H12 H23 H34 H45 H56 Hwin Hblock.
  unfold WINDOW_MS, BLOCK_DURATION in *.
  assert (canProceed x (Some 5) t6 (history x [t1; t2; t3; t4; t5])
          = (false,
             {| requests := requests (history x [t1; t2; t3; t4; t5]);
                blocked := true;
                blockUntil := t6 + 300000;
                chapterflash_security_logs :=
                  [ {| log_timestamp := t6; log_action := x; log_requestCount := 5 |} ] |}))
    as Hsixth.
  { unfold WINDOW_MS, BLOCK_DURATION. step_limiter. reflexivity. }
  split; [| split; [| split; [| split]]].
  - cbn [run_calls].
    unfold WINDOW_MS, BLOCK_DURATION.
    do 5 (step_limiter; cbn [fst snd]).
    reflexivity.
  - exact Hsixth.
  - intros t action limit Ht. rewrite Hsixth. cbn [snd].
    unfold canProceed. cbn [blocked blockUntil andb].
    settle_comparisons. reflexivity.
  - rewrite Hsixth. cbn [snd].
    unfold WINDOW_MS, BLOCK_DURATION. step_limiter. reflexivity.
  - rewrite Hsixth. cbn [snd].
    unfold WINDOW_MS, BLOCK_DURATION. step_limiter. reflexivity.
Qed.

(** Six calls a second apart, and one more five minutes after the sixth. *)
Lemma five_calls_then_block_then_reset_witness :
  run_calls "x" (Some 5) [0; 1000; 2000; 3000; 4000] new_RateLimiter
  = ([true; true; true; true; true], history "x" [0; 1000; 2000; 3000; 4000])
  /\ fst (canProceed "x" (Some 5) 5000 (history "x" [0; 1000; 2000; 3000; 4000])) = false
  /\ List.length
       (requests
          (snd (canProceed "x" (Some 5) 305000
                  (snd (canProceed "x" (Some 5) 5000
                          (history "x" [0; 1000; 2000; 3000; 4000]))))))
     = 1%nat.
Proof.
  assert (0 <= 1000) as H12 by lia.
  assert (1000 <= 2000) as H23 by lia.
  assert (2000 <= 3000) as H34 by lia.
  assert (3000 <= 4000) as H45 by lia.
  assert (4000 <= 5000) as H56 by lia.
  assert (5000 - 0 < WINDOW_MS) as Hwin by (unfold WINDOW_MS; lia).
  assert (5000 + BLOCK_DURATION <= 305000) as Hblock by (unfold BLOCK_DURATION; lia).
  pose proof (five_calls_then_block_then_reset "x" 0 1000 2000 3000 4000 5000 305000
                H12 H23 H34 H45 H56 Hwin Hblock) as [Hfive [Hsixth [_ [_ Hone]]]].
  split; [exact Hfive |]. split; [now rewrite Hsixth | exact Hone].
Defined.

(** *** Bot heuristic *)

(** The index-based [.map] of pattern 2 computes the consecutive gaps. *)
Lemma mapi_from_gaps :
  forall (arr s p : list RequestRecord) (x : RequestRecord),
    arr = (p ++ x :: s)%list ->
    mapi_from
      (fun req i =>
         if Nat.eqb i 0 then None
         else match nth_error arr (i - 1) with
              | Some prev => Some (req_timestamp req - req_timestamp prev)
              | None => None
              end)
      (S (List.length p)) s
    = map Some (gaps (req_timestamp x :: map req_timestamp s)).
Proof.
  intros arr s. induction s as [| y s IH]; intros p x Harr.
  - reflexivity.
  - cbn [mapi_from map gaps Nat.eqb].
    replace (S (List.length p) - 1)%nat with (List.length p) by lia.
    assert (nth_error arr (List.length p) = Some x) as ->.
    { subst arr. rewrite nth_error_app2 by lia. now rewrite Nat.sub_diag. }
    f_equal.
    specialize (IH (p ++ [x])%list y).
    rewrite length_app in IH. cbn [List.length] in IH.
    replace (List.length p + 1)%nat with (S (List.length p)) in IH by lia.
    apply IH. subst arr. now rewrite <- app_assoc.
Qed.

Lemma filter_Boolean_Some :
  forall g : list Z,
    filter_Boolean (map Some g) = filter (fun z => negb (Z.eqb z 0)) g.
Proof.
  induction g as [| z g IH]; [reflexivity |].
  cbn [map filter_Boolean filter]. destruct (Z.eqb z 0); cbn [negb]; now rewrite IH.
Qed.

Lemma intervals_gaps :
  forall arr : list RequestRecord,
    filter_Boolean (raw_intervals arr)
    = filter (fun z => negb (Z.eqb z 0)) (gaps (map req_timestamp arr)).
Proof.
  intros [| x s]; [reflexivity |].
  unfold raw_intervals. cbn [mapi_from Nat.eqb filter_Boolean].
  pose proof (mapi_from_gaps (x :: s) s [] x eq_refl) as Hgaps.
  cbn [List.length] in Hgaps. rewrite Hgaps.
  apply filter_Boolean_Some.
Qed.









(** The doubles matter at the threshold: the eighteen gaps of [jittered]
    have a variance of exactly 100 in the rationals; with correctly
    rounded squares the two [reduce] calls arrive below 100, and the
    history is flagged. *)
Lemma variance_rounds_below_threshold :
  (gap_variance (gaps jittered) == 100)%Q
  /\ PrimFloat.ltb (@variance Rounded (gaps jittered)) (js_number 100) = true
  /\ @detectBotBehavior Rounded 348
       (snd (run_calls "api_call" None jittered new_RateLimiter)) = true.
Proof.
  split; [vm_compute; reflexivity |]. split; vm_compute; reflexivity.
Qed.




(** * Further properties *)

(** ** Similarity and the identity record *)

Lemma strict_eq_refl : forall v : JS.value, JS.strict_eq v v = true.
Proof.
  intros [| b | n | s]; simpl.
  - reflexivity.
  - apply Bool.eqb_reflx.
  - apply Z.eqb_refl.
  - apply String.eqb_refl.
Qed.

Lemma count_loop_filter :
  forall (p : string -> bool) (ks : list string) (acc : Z),
    fold_left (fun m k => if p k then m + 1 else m) ks acc
    = acc + Z.of_nat (List.length (filter p ks)).
Proof.
  intros p ks. induction ks as [| k ks IH]; intros acc; cbn [fold_left filter].
  - simpl. lia.
  - rewrite IH. destruct (p k); cbn [List.length]; lia.
Qed.

(** The counter of [calculateSimilarity] is the number of keys of [a] on
    which the two objects agree. *)
Lemma count_matches_filter :
  forall a b : JS.object,
    count_matches a b
    = Z.of_nat (List.length
                  (filter (fun k => JS.strict_eq (JS.get a k) (JS.get b k)) (JS.keys a))).
Proof.
  intros a b. unfold count_matches.
  now rewrite (count_loop_filter (fun k => JS.strict_eq (JS.get a k) (JS.get b k))).
Qed.

Lemma filter_all :
  forall (A : Type) (p : A -> bool) (l : list A),
    (forall x, In x l -> p x = true) -> filter p l = l.
Proof.
  intros A p l. induction l as [| x l IH]; intros H; cbn [filter].
  - reflexivity.
  - rewrite (H x) by now left. rewrite IH; [reflexivity |].
    intros y Hy. apply H. now right.
Qed.

Lemma get_In :
  forall (o : JS.object) (k : string) (v : JS.value),
    NoDup (JS.keys o) -> In (k, v) o -> JS.get o k = v.
Proof.
  induction o as [| [k0 v0] o IH]; intros k v Hnd Hin.
  - contradiction.
  - cbn [JS.keys map fst] in Hnd. inversion Hnd as [| ? ? Hnotin Hnd']; subst.
    cbn [JS.get]. destruct Hin as [Heq | Hin].
    + inversion Heq; subst. now rewrite String.eqb_refl.
    + destruct (String.eqb_spec k0 k) as [-> | _].
      * exfalso. apply Hnotin. change k with (fst (k, v)). now apply in_map.
      * now apply IH.
Qed.

Lemma NoDup_keys_filter :
  forall (f : string * JS.value -> bool) (o : JS.object),
    NoDup (JS.keys o) -> NoDup (JS.keys (filter f o)).
Proof.
  intros f o. induction o as [| [k v] o IH]; intros Hnd; cbn [filter].
  - constructor.
  - cbn [JS.keys map fst] in Hnd. inversion Hnd as [| ? ? Hnotin Hnd']; subst.
    destruct (f (k, v)); [| now apply IH].
    cbn [JS.keys map fst]. constructor; [| now apply IH].
    intros Hin. apply Hnotin. unfold JS.keys in *.
    apply in_map_iff in Hin. destruct Hin as [[k' v'] [Hk Hin]].
    apply filter_In in Hin. destruct Hin as [Hin _].
    simpl in Hk. subst k'. change k with (fst (k, v')). now apply in_map.
Qed.

(** An object read back from its JSON text agrees with the original on
    every key it kept. *)
Lemma count_matches_json_roundtrip :
  forall o : JS.object,
    NoDup (JS.keys o) ->
    count_matches (JS.json_roundtrip o) o
    = Z.of_nat (List.length (JS.keys (JS.json_roundtrip o))).
Proof.
  intros o Hnd. rewrite count_matches_filter. f_equal. f_equal.
  apply filter_all. intros k Hk.
  unfold JS.keys in Hk. apply in_map_iff in Hk. destruct Hk as [[k' v] [Hfst Hin]].
  simpl in Hfst. subst k'.
  rewrite (get_In (JS.json_roundtrip o) k v); [| now apply NoDup_keys_filter | assumption].
  unfold JS.json_roundtrip in Hin. apply filter_In in Hin. destruct Hin as [Hin _].
  rewrite (get_In o k v Hnd Hin). apply strict_eq_refl.
Qed.

Lemma capture_keys :
  forall env : Env,
    JS.keys (capture_components env)
    = ["canvas"; "userAgent"; "language"; "timezone"; "screen"; "colorDepth"; "platform";
       "hardwareConcurrency"; "deviceMemory"; "touchSupport"; "vendor"].
Proof. reflexivity. Qed.

Lemma capture_keys_NoDup : forall env : Env, NoDup (JS.keys (capture_components env)).
Proof.
  intros env. rewrite capture_keys.
  repeat (constructor; [cbn [In]; intuition discriminate |]). constructor.
Qed.

(** A capture always verifies against its own persisted record. *)
Lemma capture_verifies_itself :
  forall env : Env,
    JS.gtb (calculateSimilarity (JS.json_roundtrip (capture_components env))
              (capture_components env)) (8 # 10) = true.
Proof.
  intros env. apply similarity_gt_80.
  rewrite (count_matches_json_roundtrip _ (capture_keys_NoDup env)).
  assert (0 < List.length (JS.keys (JS.json_roundtrip (capture_components env))))%nat.
  { unfold capture_components. cbn [JS.json_roundtrip filter snd JS.keys map List.length]. lia. }
  lia.
Qed.

(** X1: at start-up, when [registerDevice] finds no record, or a record
    whose id equals the id of the fresh capture, the record is replaced by
    the fresh capture and the verification that follows succeeds, whatever
    the environment; the device is reported new exactly when no record was
    stored. *)
Theorem initializeDevice_verifies :
  forall (C : Crypto) (env : Env) (now1 now2 : Z) (st : Storage),
    (chapterflash_device st = None
     \/ exists d : DeviceFingerprint,
          chapterflash_device st = Some d
          /\ fp_id d = fp_id (getDeviceFingerprint env now1)) ->
    snd (fst (initializeDevice env now1 now2 st)) = true
    /\ snd (initializeDevice env now1 now2 st)
       = set_device (persisted (getDeviceFingerprint env now1)) st
    /\ (fst (fst (initializeDevice env now1 now2 st)) = true
        <-> chapterflash_device st = None).
Proof.
  intros C env now1 now2 st Hcase.
  assert (exists isNew : bool,
             registerDevice env now1 st
             = (isNew, set_device (persisted (getDeviceFingerprint env now1)) st)
             /\ (isNew = true <-> chapterflash_device st = None)) as [isNew [Hreg HisNew]].
  { unfold registerDevice. destruct Hcase as [Hnone | [d [Hd Hid]]].
    - rewrite Hnone. exists true. split; [reflexivity | tauto].
    - rewrite Hd. apply String.eqb_eq in Hid. rewrite Hid. cbn [negb].
      exists false. split; [reflexivity |]. split; discriminate. }
  unfold initializeDevice, bind, ret. rewrite Hreg.
  unfold verifyDevice. cbn [chapterflash_device set_device].
  cbn [persisted fp_components getDeviceFingerprint].
  rewrite capture_verifies_itself. cbn [fst snd]. tauto.
Qed.

(** First start on a fresh profile of [desktop]. *)
Lemma initializeDevice_verifies_witness :
  snd (fst (@initializeDevice Plain desktop 1000 1001 (@empty_storage Plain))) = true.
Proof.
  exact (proj1 (initializeDevice_verifies Plain desktop 1000 1001 (@empty_storage Plain)
                  (or_introl eq_refl))).
Defined.

(** X2: once an identity record is stored, its id is what [getDeviceId]
    returns in every environment, and neither [getDeviceId] nor
    [registerDevice] nor [verifyDevice] nor the start-up sequence ever
    changes the stored id; [getDeviceId] and [verifyDevice] do not write
    at all. *)
Theorem stored_device_id_is_kept :
  forall (C : Crypto) (env : Env) (now now' : Z) (st : Storage) (d : DeviceFingerprint),
    chapterflash_device st = Some d ->
    getDeviceId env now st = (fp_id d, st)
    /\ snd (verifyDevice env now st) = st
    /\ option_map fp_id (chapterflash_device (snd (registerDevice env now st)))
       = Some (fp_id d)
    /\ option_map fp_id (chapterflash_device (snd (initializeDevice env now now' st)))
       = Some (fp_id d)
    /\ (fp_id d <> fp_id (getDeviceFingerprint env now) ->
        snd (initializeDevice env now now' st) = st).
Proof.
  intros C env now now' st d Hd.
  assert (option_map fp_id (chapterflash_device (snd (registerDevice env now st)))
          = Some (fp_id d)
          /\ (fp_id d <> fp_id (getDeviceFingerprint env now) ->
              registerDevice env now st = (false, st))) as [Hreg Hmis].
  { unfold registerDevice. rewrite Hd.
    destruct (String.eqb_spec (fp_id d) (fp_id (getDeviceFingerprint env now))) as [Heq | Hne];
      cbn [negb snd].
    - split; [| contradiction]. cbn [set_device chapterflash_device option_map persisted fp_id].
      now rewrite Heq.
    - split; [now rewrite Hd | reflexivity]. }
  assert (forall st' : Storage, chapterflash_device st' <> None ->
                                snd (verifyDevice env now' st') = st') as Hver.
  { intros st' Hsome. unfold verifyDevice.
    destruct (chapterflash_device st'); [reflexivity | contradiction]. }
  split; [| split; [| split; [| split]]].
  - unfold getDeviceId. now rewrite Hd.
  - unfold verifyDevice. now rewrite Hd.
  - exact Hreg.
  - unfold initializeDevice, bind, ret.
    destruct (registerDevice env now st) as [isNew st1] eqn:E. cbn [snd] in Hreg.
    assert (chapterflash_device st1 <> None) as Hsome.
    { intros Hnone. rewrite Hnone in Hreg. discriminate. }
    specialize (Hver st1 Hsome).
    destruct (verifyDevice env now' st1) as [ok st2]. cbn [snd] in *. now subst st2.
  - intros Hne. unfold initializeDevice, bind, ret. rewrite (Hmis Hne).
    assert (chapterflash_device st <> None) as Hsome by (rewrite Hd; discriminate).
    specialize (Hver st Hsome).
    destruct (verifyDevice env now' st) as [ok st2]. cbn [snd] in *. now subst st2.
Qed.

(** The profile [registered] opened after two readings have moved. *)
Lemma stored_device_id_is_kept_witness :
  @getDeviceId Plain (drifted 2) 9000 registered
  = (fp_id (@getDeviceFingerprint Plain desktop 1000), registered).
Proof.
  exact (proj1 (stored_device_id_is_kept Plain (drifted 2) 9000 9001 registered
                  (persisted (@getDeviceFingerprint Plain desktop 1000)) eq_refl)).
Defined.




(** X4: the similarity of two objects is not a number exactly when the
    first has no keys, is never infinite, and otherwise lies between 0 and
    1; an object with at least one key has similarity 1 with itself, and a
    stored record without components fails every verification. *)
Theorem similarity_range :
  forall (a b : JS.object),
    (calculateSimilarity a b = JS.NaN <-> a = [])
    /\ calculateSimilarity a b <> JS.Infinity
    /\ (forall q : Q, calculateSimilarity a b = JS.Finite q -> (0 <= q)%Q /\ (q <= 1)%Q)
    /\ (a <> [] -> exists q : Q, calculateSimilarity a a = JS.Finite q /\ (q == 1)%Q)
    /\ (forall (C : Crypto) (env : Env) (now : Z) (st : Storage) (d : DeviceFingerprint),
          chapterflash_device st = Some d -> fp_components d = [] ->
          fst (verifyDevice env now st) = false).
Proof.
  intros a b.
  pose proof (count_matches_bounds a b) as Hb.
  assert (Z.of_nat (List.length (JS.keys a)) = 0 <-> a = []) as Hempty.
  { unfold JS.keys. rewrite length_map. destruct a; cbn [List.length]; split;
      (reflexivity || discriminate || lia). }
  unfold calculateSimilarity, JS.div.
  split; [| split; [| split; [| split]]].
  - destruct (Z.eqb_spec (Z.of_nat (List.length (JS.keys a))) 0) as [Hz | Hnz].
    + assert (count_matches a b = 0) as -> by lia. cbn [Z.eqb]. tauto.
    + split; [discriminate | intros Ha; apply Hempty in Ha; contradiction].
  - destruct (Z.eqb_spec (Z.of_nat (List.length (JS.keys a))) 0) as [Hz | Hnz].
    + assert (count_matches a b = 0) as -> by lia. discriminate.
    + discriminate.
  - intros q. destruct (Z.eqb_spec (Z.of_nat (List.length (JS.keys a))) 0) as [Hz | Hnz].
    + destruct (Z.eqb _ 0); discriminate.
    + intros Hq. inversion Hq; subst q. unfold Qle. cbn [Qnum Qden].
      rewrite Z2Pos.id by lia. lia.
  - intros Hne.
    assert (count_matches a a = Z.of_nat (List.length (JS.keys a))) as Hself.
    { rewrite count_matches_filter. f_equal. f_equal.
      apply filter_all. intros k _. apply strict_eq_refl. }
    destruct (Z.eqb_spec (Z.of_nat (List.length (JS.keys a))) 0) as [Hz | Hnz].
    + apply Hempty in Hz. contradiction.
    + eexists. split; [reflexivity |]. rewrite Hself.
      unfold Qeq. cbn [Qnum Qden]. rewrite Z2Pos.id by lia. lia.
  - intros C env now st d Hd Hnil. unfold verifyDevice. rewrite Hd, Hnil. reflexivity.
Qed.

(** ** License keys *)

Lemma expect_iff :
  forall p s r : string, expect p s = Some r <-> s = p ++ r.
Proof.
  induction p as [| a p IH]; intros s r; cbn [expect append].
  - split; [intros H; now inversion H | intros ->; reflexivity].
  - destruct s as [| b s].
    + split; discriminate.
    + destruct (Ascii.eqb_spec a b) as [-> | Hne].
      * rewrite IH. split; [intros ->; reflexivity | intros H; now inversion H].
      * split; [discriminate | intros H; inversion H; congruence].
Qed.

Lemma expect_alnum_iff :
  forall (n : nat) (s r : string),
    expect_alnum n s = Some r
    <-> exists seg : string,
          s = seg ++ r /\ String.length seg = n
          /\ Forall (fun c => is_upper_alnum c = true) (list_ascii_of_string seg).
Proof.
  induction n as [| n IH]; intros s r; cbn [expect_alnum].
  - split.
    + intros H. inversion H; subst. exists "". repeat split. constructor.
    + intros [seg [-> [Hlen _]]]. destruct seg; [reflexivity | discriminate].
  - destruct s as [| c s].
    + split; [discriminate |]. intros [seg [Hs [Hlen _]]].
      destruct seg; discriminate.
    + destruct (is_upper_alnum c) eqn:Hc.
      * rewrite IH. split.
        -- intros [seg [-> [Hlen Hall]]]. exists (String c seg).
           cbn [append String.length list_ascii_of_string].
           repeat split; [now rewrite Hlen | now constructor].
        -- intros [seg [Hs [Hlen Hall]]]. destruct seg as [| c' seg]; [discriminate |].
           cbn [append String.length list_ascii_of_string] in *.
           inversion Hs; subst. inversion Hall; subst.
           exists seg. repeat split; [lia | assumption].
      * split; [discriminate |]. intros [seg [Hs [Hlen Hall]]].
        destruct seg as [| c' seg]; [discriminate |].
        cbn [append list_ascii_of_string] in *. inversion Hs; subst.
        inversion Hall; subst. congruence.
Qed.

Lemma expect_segment_iff :
  forall s r : string,
    expect_segment s = Some r <-> exists seg : string, segment_ok seg /\ s = "-" ++ seg ++ r.
Proof.
  intros s r. unfold expect_segment, segment_ok. split.
  - destruct (expect "-" s) as [r0 |] eqn:E; [| discriminate].
    apply expect_iff in E. intros H. apply expect_alnum_iff in H.
    destruct H as [seg [-> [Hlen Hall]]]. exists seg. subst s. repeat split; assumption.
  - intros [seg [[Hlen Hall] ->]].
    assert (expect "-" ("-" ++ seg ++ r) = Some (seg ++ r)) as -> by now apply expect_iff.
    apply expect_alnum_iff. exists seg. repeat split; assumption.
Qed.

Lemma string_app_nil_r : forall s : string, s ++ "" = s.
Proof.
  induction s as [| c s IH]; [reflexivity | cbn [append]; now rewrite IH].
Qed.

(** The matcher accepts exactly the strings of the license grammar. *)
Lemma isValidLicenseFormat_iff :
  forall k : string,
    isValidLicenseFormat k = true
    <-> exists s1 s2 s3 s4 : string,
          segment_ok s1 /\ segment_ok s2 /\ segment_ok s3 /\ segment_ok s4
          /\ k = "CFEMT" ++ "-" ++ s1 ++ "-" ++ s2 ++ "-" ++ s3 ++ "-" ++ s4.
Proof.
  intros k. unfold isValidLicenseFormat. split.
  - destruct (expect "CFEMT" k) as [r0 |] eqn:E0; [| discriminate].
    destruct (expect_segment r0) as [r1 |] eqn:E1; [| discriminate].
    destruct (expect_segment r1) as [r2 |] eqn:E2; [| discriminate].
    destruct (expect_segment r2) as [r3 |] eqn:E3; [| discriminate].
    destruct (expect_segment r3) as [r4 |] eqn:E4; [| discriminate].
    destruct r4; [| discriminate]. intros _.
    apply expect_iff in E0.
    apply expect_segment_iff in E1, E2, E3, E4.
    destruct E1 as [s1 [H1 ->]]. destruct E2 as [s2 [H2 ->]].
    destruct E3 as [s3 [H3 ->]]. destruct E4 as [s4 [H4 ->]].
    exists s1, s2, s3, s4.
    do 4 (split; [assumption |]).
    rewrite E0. now rewrite (string_app_nil_r s4).
  - intros [s1 [s2 [s3 [s4 [H1 [H2 [H3 [H4 ->]]]]]]]].
    assert (expect "CFEMT" ("CFEMT" ++ "-" ++ s1 ++ "-" ++ s2 ++ "-" ++ s3 ++ "-" ++ s4)
            = Some ("-" ++ s1 ++ "-" ++ s2 ++ "-" ++ s3 ++ "-" ++ s4)) as ->
        by now apply expect_iff.
    assert (expect_segment ("-" ++ s1 ++ "-" ++ s2 ++ "-" ++ s3 ++ "-" ++ s4)
            = Some ("-" ++ s2 ++ "-" ++ s3 ++ "-" ++ s4)) as ->
        by (apply expect_segment_iff; now exists s1).
    assert (expect_segment ("-" ++ s2 ++ "-" ++ s3 ++ "-" ++ s4)
            = Some ("-" ++ s3 ++ "-" ++ s4)) as ->
        by (apply expect_segment_iff; now exists s2).
    assert (expect_segment ("-" ++ s3 ++ "-" ++ s4) = Some ("-" ++ s4)) as ->
        by (apply expect_segment_iff; now exists s3).
    assert (expect_segment ("-" ++ s4) = Some "") as ->.
    { apply expect_segment_iff. exists s4. split; [assumption |].
      now rewrite (string_app_nil_r s4). }
    reflexivity.
Qed.

Lemma string_length_app :
  forall a b : string, String.length (a ++ b) = (String.length a + String.length b)%nat.
Proof.
  induction a as [| c a IH]; intros b; cbn [append String.length]; [reflexivity |].
  now rewrite IH.
Qed.

Lemma valid_key_length :
  forall k : string, isValidLicenseFormat k = true -> String.length k = 29%nat.
Proof.
  intros k H. apply isValidLicenseFormat_iff in H.
  destruct H as [s1 [s2 [s3 [s4 [[L1 _] [[L2 _] [[L3 _] [[L4 _] ->]]]]]]]].
  repeat rewrite string_length_app. rewrite L1, L2, L3, L4. reflexivity.
Qed.

(** X5: [isValidLicenseFormat] accepts exactly the keys made of the prefix
    [CFEMT] and four groups of a hyphen and five upper-case letters or
    digits; an accepted key has 29 characters, and no accepted key stays
    accepted when anything is appended to it. *)
Theorem license_key_grammar :
  forall k : string,
    (isValidLicenseFormat k = true
     <-> exists s1 s2 s3 s4 : string,
           segment_ok s1 /\ segment_ok s2 /\ segment_ok s3 /\ segment_ok s4
           /\ k = "CFEMT-" ++ s1 ++ "-" ++ s2 ++ "-" ++ s3 ++ "-" ++ s4)
    /\ (isValidLicenseFormat k = true -> String.length k = 29%nat)
    /\ (isValidLicenseFormat k = true ->
        forall suffix : string, suffix <> "" -> isValidLicenseFormat (k ++ suffix) = false).
Proof.
  intros k. split; [apply isValidLicenseFormat_iff |].
  split; [apply valid_key_length |].
  intros Hk suffix Hsuffix.
  destruct (isValidLicenseFormat (k ++ suffix)) eqn:E; [| reflexivity].
  apply valid_key_length in Hk, E. rewrite string_length_app, Hk in E.
  destruct suffix; [contradiction | cbn [String.length] in E; lia].
Qed.

Lemma charAt_key_chars :
  forall i : nat,
    (i < 36)%nat ->
    exists c : ascii,
      charAt key_chars i = String c EmptyString /\ is_upper_alnum c = true.
Proof.
  intros i Hi.
  do 36 (destruct i as [| i]; [eexists; split; reflexivity |]).
  lia.
Qed.

Lemma key_segment_ok :
  forall (draw : nat -> nat) (first : nat),
    (forall k : nat, (draw k < 36)%nat) -> segment_ok (key_segment draw first).
Proof.
  intros draw first Hdraw. unfold key_segment. cbn [seq fold_left].
  destruct (charAt_key_chars _ (Hdraw (first + 0)%nat)) as [c0 [-> H0]].
  destruct (charAt_key_chars _ (Hdraw (first + 1)%nat)) as [c1 [-> H1]].
  destruct (charAt_key_chars _ (Hdraw (first + 2)%nat)) as [c2 [-> H2]].
  destruct (charAt_key_chars _ (Hdraw (first + 3)%nat)) as [c3 [-> H3]].
  destruct (charAt_key_chars _ (Hdraw (first + 4)%nat)) as [c4 [-> H4]].
  cbn [append]. split; [reflexivity |].
  cbn [list_ascii_of_string]. repeat constructor; assumption.
Qed.

(** X6: whatever [Math.random] returns, the key built by
    [generateLicenseKey] is one that [isValidLicenseFormat] accepts. *)
Theorem generated_key_is_valid :
  forall draw : nat -> nat,
    (forall k : nat, (draw k < 36)%nat) ->
    isValidLicenseFormat (generateLicenseKey draw) = true
    /\ String.length (generateLicenseKey draw) = 29%nat.
Proof.
  intros draw Hdraw.
  assert (isValidLicenseFormat (generateLicenseKey draw) = true) as Hok.
  { apply isValidLicenseFormat_iff.
    exists (key_segment draw 0), (key_segment draw 5),
           (key_segment draw 10), (key_segment draw 15).
    repeat (split; [now apply key_segment_ok |]).
    reflexivity. }
  split; [exact Hok | now apply valid_key_length].
Qed.

(** Draws that walk through the alphabet in steps of seven. *)
Lemma generated_key_is_valid_witness :
  isValidLicenseFormat (generateLicenseKey (fun k => (7 * k) mod 36)%nat) = true.
Proof.
  refine (proj1 (generated_key_is_valid (fun k => (7 * k) mod 36)%nat _)).
  intros k. apply Nat.mod_upper_bound. discriminate.
Defined.

(** ** License store: round trip, accessors, stability *)

Lemma getDeviceId_stored :
  forall (C : Crypto) (env : Env) (now : Z) (st : Storage) (d : DeviceFingerprint),
    chapterflash_device st = Some d -> getDeviceId env now st = (fp_id d, st).
Proof.
  intros C env now st d Hd. unfold getDeviceId. now rewrite Hd.
Qed.

(** [validateLicense] on a profile that holds both a license that loads
    and an identity record. *)
Lemma validateLicense_with_record :
  forall (C : Crypto) (licenseKey : option string) (env : Env) (now : Z)
         (st : Storage) (l : License) (d : DeviceFingerprint),
    stored_license st = Some l ->
    expired l now = false ->
    chapterflash_device st = Some d ->
    validateLicense licenseKey env now st
    = if includes (currentDevices l) (fp_id d)
      then (valid_result l now, st)
      else if Z.geb (Z.of_nat (List.length (currentDevices l))) (maxDevices l)
           then (device_limit_error l, st)
           else (valid_result
                   (with_currentDevices l (currentDevices l ++ [fp_id d])%list) now,
                 snd (storeLicense
                        (with_currentDevices l (currentDevices l ++ [fp_id d])%list) st)).
Proof.
  intros C licenseKey env now st l d Hst Hexp Hd.
  rewrite (validateLicense_stored C licenseKey env now st l Hst).
  rewrite checkLicense_cases by assumption.
  now rewrite (getDeviceId_stored C env now st d Hd).
Qed.

Lemma storeLicense_device :
  forall (C : Crypto) (l : License) (st : Storage),
    chapterflash_device (snd (storeLicense l st)) = chapterflash_device st.
Proof. reflexivity. Qed.

(** X7: what [storeLicense] writes is what the next load and the read
    accessors return, with the storage left as it is; the identity record
    is not touched by [storeLicense] or [revokeLicense]; after
    [revokeLicense] no license loads and no feature is granted. *)
Theorem license_store_round_trip :
  forall (C : Crypto) (L : CryptoLaws C) (l : License) (st : Storage) (feature : string),
    getStoredLicense (snd (storeLicense l st)) = (Some l, snd (storeLicense l st))
    /\ hasFeature feature (snd (storeLicense l st))
       = (includes (features l) feature, snd (storeLicense l st))
    /\ getLicenseTier (snd (storeLicense l st)) = (Some (tier l), snd (storeLicense l st))
    /\ getLicenseInfo (snd (storeLicense l st))
       = (Some {| info_tier := tier l;
                  info_devicesUsed := Z.of_nat (List.length (currentDevices l));
                  info_maxDevices := maxDevices l;
                  info_expiresAt := expiresAt l;
                  info_features := features l |},
          snd (storeLicense l st))
    /\ chapterflash_device (snd (storeLicense l st)) = chapterflash_device st
    /\ chapterflash_device (snd (revokeLicense st)) = chapterflash_device st
    /\ getStoredLicense (snd (revokeLicense st)) = (None, snd (revokeLicense st))
    /\ hasFeature feature (snd (revokeLicense st)) = (false, snd (revokeLicense st))
    /\ getLicenseInfo (snd (revokeLicense st)) = (None, snd (revokeLicense st)).
Proof.
  intros C L l st feature.
  assert (getStoredLicense (snd (storeLicense l st)) = (Some l, snd (storeLicense l st)))
    as Hload.
  { apply getStoredLicense_stored. apply stored_license_storeLicense. }
  split; [exact Hload |].
  split; [unfold hasFeature, bind, ret; now rewrite Hload |].
  split; [unfold getLicenseTier, bind, ret; now rewrite Hload |].
  split; [unfold getLicenseInfo, bind, ret; now rewrite Hload |].
  repeat split.
Qed.

(** The license of [activated], stored again on the profile [registered]. *)
Lemma license_store_round_trip_witness :
  @hasFeature Plain "export_data" (snd (@storeLicense Plain activated_license registered))
  = (true, snd (@storeLicense Plain activated_license registered)).
Proof.
  exact (proj1 (proj2 (license_store_round_trip Plain Plain_laws activated_license registered
                         "export_data"))).
Defined.

(** What a valid answer of [validateLicense] leaves behind. *)
Lemma validateLicense_valid_post :
  forall (C : Crypto) (L : CryptoLaws C) (licenseKey : option string)
         (env : Env) (now : Z) (st : Storage),
    res_valid (fst (validateLicense licenseKey env now st)) = true ->
    exists (l : License) (d : DeviceFingerprint),
      fst (validateLicense licenseKey env now st) = valid_result l now
      /\ stored_license (snd (validateLicense licenseKey env now st)) = Some l
      /\ expired l now = false
      /\ chapterflash_device (snd (validateLicense licenseKey env now st)) = Some d
      /\ includes (currentDevices l) (fp_id d) = true.
Proof.
  intros C L licenseKey env now st Hvalid.
  assert (forall st0 : Storage,
             exists d : DeviceFingerprint,
               chapterflash_device (snd (getDeviceId env now st0)) = Some d
               /\ fp_id d = fst (getDeviceId env now st0)) as Hrecord.
  { intros st0. unfold getDeviceId.
    destruct (chapterflash_device st0) as [d |] eqn:Hd; cbn [fst snd].
    - exists d. now rewrite Hd.
    - eexists. split; reflexivity. }
  destruct (stored_license st) as [l |] eqn:Hst.
  - rewrite (validateLicense_stored C licenseKey env now st l Hst) in *.
    destruct (expired l now) eqn:Hexp.
    + unfold checkLicense in Hvalid. rewrite Hexp in Hvalid. discriminate.
    + rewrite checkLicense_cases in * by assumption.
      destruct (Hrecord st) as [d [Hd Hid]].
      pose proof (getDeviceId_same_license C env now st) as Hsame.
      destruct (includes (currentDevices l) (fst (getDeviceId env now st))) eqn:Hinc.
      * exists l, d. cbn [fst snd].
        repeat split; try assumption.
        -- now rewrite (stored_license_same C _ _ Hsame).
        -- now rewrite Hid.
      * destruct (Z.geb _ _); [discriminate |].
        eexists. exists d. cbn [fst snd].
        split; [reflexivity |]. split; [apply stored_license_storeLicense |].
        split; [exact Hexp |]. split; [exact Hd |].
        cbn [currentDevices with_currentDevices]. apply includes_In.
        apply in_or_app. right. left. now rewrite Hid.
  - destruct licenseKey as [k |].
    + destruct (String.eqb_spec k "") as [-> | Hk].
      { unfold validateLicense, bind in Hvalid.
        destruct (getStoredLicense st) as [[l |] st1] eqn:E.
        - unfold stored_license in Hst. rewrite E in Hst. discriminate.
        - discriminate. }
      destruct (isValidLicenseFormat k) eqn:Hfmt.
      * rewrite (validateLicense_activate C k env now st Hst Hk Hfmt) in *.
        destruct (getStoredLicense_None C st Hst) as [_ Hdev].
        destruct (Hrecord (snd (getStoredLicense st))) as [d [Hd Hid]].
        rewrite (getDeviceId_device C env now st _ Hdev) in Hid.
        eexists. exists d. cbn [fst snd].
        split; [reflexivity |]. split; [apply stored_license_storeLicense |].
        split; [reflexivity |]. split; [exact Hd |].
        cbn [currentDevices demo_license]. apply includes_In. left. now rewrite Hid.
      * unfold validateLicense, bind in Hvalid.
        destruct (getStoredLicense st) as [[l |] st1] eqn:E.
        -- unfold stored_license in Hst. rewrite E in Hst. discriminate.
        -- apply String.eqb_neq in Hk. rewrite Hk, Hfmt in Hvalid. discriminate.
    + unfold validateLicense, bind in Hvalid.
      destruct (getStoredLicense st) as [[l |] st1] eqn:E.
      * unfold stored_license in Hst. rewrite E in Hst. discriminate.
      * discriminate.
Qed.

(** X8: once [validateLicense] has answered valid, every later call on
    that profile, with any key and in any environment, answers valid with
    the same license and writes nothing, for as long as the license has
    not expired. *)
Theorem valid_license_stays_valid :
  forall (C : Crypto) (L : CryptoLaws C) (licenseKey : option string)
         (env : Env) (now : Z) (st : Storage),
    res_valid (fst (validateLicense licenseKey env now st)) = true ->
    exists l : License,
      fst (validateLicense licenseKey env now st) = valid_result l now
      /\ forall (licenseKey' : option string) (env' : Env) (now' : Z),
           expired l now' = false ->
           validateLicense licenseKey' env' now' (snd (validateLicense licenseKey env now st))
           = (valid_result l now', snd (validateLicense licenseKey env now st))
           /\ isLicenseValid env' now' (snd (validateLicense licenseKey env now st))
              = (true, snd (validateLicense licenseKey env now st)).
Proof.
  intros C L licenseKey env now st Hvalid.
  destruct (validateLicense_valid_post C L licenseKey env now st Hvalid)
    as [l [d [Hres [Hst [Hexp [Hd Hinc]]]]]].
  exists l. split; [exact Hres |].
  intros licenseKey' env' now' Hexp'.
  assert (forall key', validateLicense key' env' now' (snd (validateLicense licenseKey env now st))
                       = (valid_result l now', snd (validateLicense licenseKey env now st)))
    as Hagain.
  { intros key'. rewrite (validateLicense_with_record C key' env' now' _ l d Hst Hexp' Hd).
    now rewrite Hinc. }
  split; [apply Hagain |].
  unfold isLicenseValid, bind, ret. now rewrite Hagain.
Qed.

(** Activation on [registered], then a validation a day later from a
    drifted environment. *)
Lemma valid_license_stays_valid_witness :
  exists l : License,
    fst (@validateLicense Plain (Some demo_key) desktop 5000 registered) = valid_result l 5000
    /\ forall (licenseKey' : option string) (env' : Env) (now' : Z),
         expired l now' = false ->
         @validateLicense Plain licenseKey' env' now'
           (snd (@validateLicense Plain (Some demo_key) desktop 5000 registered))
         = (valid_result l now',
            snd (@validateLicense Plain (Some demo_key) desktop 5000 registered))
         /\ @isLicenseValid Plain env' now'
              (snd (@validateLicense Plain (Some demo_key) desktop 5000 registered))
            = (true, snd (@validateLicense Plain (Some demo_key) desktop 5000 registered)).
Proof.
  exact (valid_license_stays_valid Plain Plain_laws (Some demo_key) desktop 5000 registered
           eq_refl).
Defined.

(** ** License manager: device slots over several machines, expiry *)

Lemma set_device_record :
  forall (C : Crypto) (d : DeviceFingerprint) (st : Storage),
    chapterflash_device (set_device d st) = Some d.
Proof. reflexivity. Qed.

Lemma stored_license_set_device :
  forall (C : Crypto) (d : DeviceFingerprint) (st : Storage),
    stored_license (set_device d st) = stored_license st.
Proof.
  intros C d st. apply stored_license_same, same_license_set_device.
Qed.

(** X9: a license activated on one machine and then validated on two
    more takes its three slots in that order, and a validation on a fourth
    machine is answered with the device-limit error, without a write. *)
Theorem fourth_device_is_refused :
  forall (C : Crypto) (L : CryptoLaws C) (k : string) (env : Env)
         (now1 now2 now3 now4 : Z) (st0 : Storage) (d1 d2 d3 d4 : DeviceFingerprint),
    stored_license st0 = None ->
    k <> "" ->
    isValidLicenseFormat k = true ->
    NoDup [fp_id d1; fp_id d2; fp_id d3; fp_id d4] ->
    let st1 := snd (validateLicense (Some k) env now1 (set_device d1 st0)) in
    let st2 := snd (validateLicense None env now2 (set_device d2 st1)) in
    let st3 := snd (validateLicense None env now3 (set_device d3 st2)) in
    res_valid (fst (validateLicense (Some k) env now1 (set_device d1 st0))) = true
    /\ res_valid (fst (validateLicense None env now2 (set_device d2 st1))) = true
    /\ res_valid (fst (validateLicense None env now3 (set_device d3 st2))) = true
    /\ option_map currentDevices (stored_license st3) = Some [fp_id d1; fp_id d2; fp_id d3]
    /\ validateLicense None env now4 (set_device d4 st3)
       = ({| res_valid := false;
             res_license := None;
             res_error :=
               Some "License is already active on 3 devices. Please deactivate a device first.";
             res_daysRemaining := None |},
          set_device d4 st3).
Proof.
  intros C L k env now1 now2 now3 now4 st0 d1 d2 d3 d4 Hst0 Hk Hfmt Hnd st1 st2 st3.
  assert (fp_id d1 <> fp_id d2 /\ fp_id d1 <> fp_id d3 /\ fp_id d1 <> fp_id d4
          /\ fp_id d2 <> fp_id d3 /\ fp_id d2 <> fp_id d4 /\ fp_id d3 <> fp_id d4)
    as [H12 [H13 [H14 [H23 [H24 H34]]]]].
  { inversion Hnd as [| ? ? N1 Hnd1]; subst. inversion Hnd1 as [| ? ? N2 Hnd2]; subst.
    inversion Hnd2 as [| ? ? N3 _]; subst. cbn [In] in *. intuition. }
  (* activation on the first machine *)
  pose proof (validateLicense_activate C k env now1 (set_device d1 st0)) as Hact.
  rewrite stored_license_set_device in Hact. specialize (Hact Hst0 Hk Hfmt).
  rewrite (getDeviceId_stored C env now1 (set_device d1 st0) d1 eq_refl) in Hact.
  cbn [fst] in Hact.
  set (l1 := demo_license k (fp_id d1) now1) in *.
  assert (stored_license st1 = Some l1) as Hst1.
  { unfold st1. rewrite Hact. cbn [snd]. apply stored_license_storeLicense. }
  (* the second machine *)
  pose proof (validateLicense_with_record C None env now2 (set_device d2 st1) l1 d2) as Hv2.
  rewrite stored_license_set_device in Hv2. specialize (Hv2 Hst1 eq_refl eq_refl).
  assert (includes (currentDevices l1) (fp_id d2) = false) as Hinc2.
  { apply includes_not_In. cbn [l1 demo_license currentDevices In]. intuition. }
  rewrite Hinc2 in Hv2. cbn [l1 demo_license currentDevices maxDevices List.length] in Hv2.
  change (Z.of_nat 1 >=? 3) with false in Hv2.
  set (l2 := with_currentDevices (demo_license k (fp_id d1) now1) ([fp_id d1] ++ [fp_id d2])) in *.
  assert (stored_license st2 = Some l2) as Hst2.
  { unfold st2. rewrite Hv2. cbn [snd]. apply stored_license_storeLicense. }
  (* the third machine *)
  pose proof (validateLicense_with_record C None env now3 (set_device d3 st2) l2 d3) as Hv3.
  rewrite stored_license_set_device in Hv3. specialize (Hv3 Hst2 eq_refl eq_refl).
  assert (includes (currentDevices l2) (fp_id d3) = false) as Hinc3.
  { apply includes_not_In. cbn [l2 with_currentDevices currentDevices app In]. intuition. }
  rewrite Hinc3 in Hv3.
  cbn [l2 with_currentDevices demo_license currentDevices maxDevices List.length app] in Hv3.
  change (Z.of_nat 2 >=? 3) with false in Hv3.
  set (l3 := with_currentDevices
               (with_currentDevices (demo_license k (fp_id d1) now1) [fp_id d1; fp_id d2])
               ([fp_id d1; fp_id d2] ++ [fp_id d3])) in *.
  assert (stored_license st3 = Some l3) as Hst3.
  { unfold st3. rewrite Hv3. cbn [snd]. apply stored_license_storeLicense. }
  (* the fourth machine *)
  pose proof (validateLicense_with_record C None env now4 (set_device d4 st3) l3 d4) as Hv4.
  rewrite stored_license_set_device in Hv4. specialize (Hv4 Hst3 eq_refl eq_refl).
  assert (includes (currentDevices l3) (fp_id d4) = false) as Hinc4.
  { apply includes_not_In. cbn [l3 with_currentDevices currentDevices app In]. intuition. }
  rewrite Hinc4 in Hv4.
  cbn [l3 with_currentDevices demo_license currentDevices maxDevices List.length app] in Hv4.
  change (Z.of_nat 3 >=? 3) with true in Hv4.
  split; [now rewrite Hact |].
  split; [now rewrite Hv2 |].
  split; [now rewrite Hv3 |].
  split; [now rewrite Hst3 |].
  exact Hv4.
Qed.

(** Machines A, B, C and D sharing one profile. *)
Lemma fourth_device_is_refused_witness :
  res_error
    (fst (@validateLicense Plain None desktop 4000
            (set_device (machine "D")
               (snd (@validateLicense Plain None desktop 3000
                       (set_device (machine "C")
                          (snd (@validateLicense Plain None desktop 2000
                                  (set_device (machine "B")
                                     (snd (@validateLicense Plain (Some demo_key) desktop 1000
                                             (set_device (machine "A")
                                                (@empty_storage Plain)))))))))))))
  = Some "License is already active on 3 devices. Please deactivate a device first.".
Proof.
  assert (NoDup [fp_id (machine "A"); fp_id (machine "B");
                 fp_id (machine "C"); fp_id (machine "D")]) as Hnd.
  { repeat (constructor; [cbn [In machine fp_id]; intuition discriminate |]). constructor. }
  assert (demo_key <> "") as Hk by discriminate.
  pose proof (fourth_device_is_refused Plain Plain_laws demo_key desktop 1000 2000 3000 4000
                (@empty_storage Plain) (machine "A") (machine "B") (machine "C") (machine "D")
                eq_refl Hk eq_refl Hnd) as H.
  cbv zeta in H. destruct H as [_ [_ [_ [_ H]]]].
  rewrite H. reflexivity.
Defined.

(** X10: when the current device is listed on a license that has not
    expired and holds no more devices than it allows, [deactivateDevice]
    followed by a validation on the same profile leaves the device listed
    again, now in last position, and the validation answers valid. *)
Theorem deactivation_undone_by_validation :
  forall (C : Crypto) (L : CryptoLaws C) (licenseKey : option string) (env : Env)
         (now now' : Z) (st : Storage) (l : License) (d : DeviceFingerprint),
    stored_license st = Some l ->
    chapterflash_device st = Some d ->
    In (fp_id d) (currentDevices l) ->
    Z.of_nat (List.length (currentDevices l)) <= maxDevices l ->
    expired l now' = false ->
    let remaining := filter (fun id => negb (String.eqb id (fp_id d))) (currentDevices l) in
    let st1 := snd (deactivateDevice env now st) in
    fst (deactivateDevice env now st) = true
    /\ option_map currentDevices (stored_license st1) = Some remaining
    /\ ~ In (fp_id d) remaining
    /\ res_valid (fst (validateLicense licenseKey env now' st1)) = true
    /\ option_map currentDevices
         (stored_license (snd (validateLicense licenseKey env now' st1)))
       = Some (remaining ++ [fp_id d])%list.
Proof.
  intros C L licenseKey env now now' st l d Hst Hd Hin Hlen Hexp remaining st1.
  assert (~ In (fp_id d) remaining) as Hgone.
  { unfold remaining. intros H. apply filter_In in H. destruct H as [_ H].
    now rewrite String.eqb_refl in H. }
  assert (List.length remaining < List.length (currentDevices l))%nat as Hless.
  { unfold remaining. clear -Hin. induction (currentDevices l) as [| x xs IH];
      [contradiction |].
    cbn [filter List.length]. destruct Hin as [-> | Hin].
    - rewrite String.eqb_refl. cbn [negb].
      pose proof (filter_length_le (fun id => negb (String.eqb id (fp_id d))) xs). lia.
    - specialize (IH Hin). destruct (negb (String.eqb x (fp_id d))); cbn [List.length]; lia. }
  pose proof (deactivateDevice_stored env now st l Hst) as Hdeact.
  rewrite (getDeviceId_stored C env now st d Hd) in Hdeact. cbn [fst snd] in Hdeact.
  fold remaining in Hdeact.
  assert (stored_license st1 = Some (with_currentDevices l remaining)) as Hst1.
  { unfold st1. rewrite Hdeact. cbn [snd]. apply stored_license_storeLicense. }
  assert (chapterflash_device st1 = Some d) as Hd1.
  { unfold st1. rewrite Hdeact. cbn [snd]. now rewrite storeLicense_device. }
  pose proof (validateLicense_with_record C licenseKey env now' st1
                (with_currentDevices l remaining) d Hst1 Hexp Hd1) as Hv.
  cbn [currentDevices with_currentDevices maxDevices] in Hv.
  rewrite (includes_not_In _ _ Hgone) in Hv.
  destruct (Z.geb_spec (Z.of_nat (List.length remaining)) (maxDevices l)) as [Hge | Hlt];
    [lia |].
  split; [now rewrite Hdeact |].
  split; [now rewrite Hst1 |].
  split; [exact Hgone |].
  rewrite Hv. cbn [fst snd res_valid valid_result].
  split; [reflexivity |].
  now rewrite stored_license_storeLicense.
Qed.

(** Deactivation and a new validation on [activated]. *)
Lemma deactivation_undone_by_validation_witness :
  option_map currentDevices
    (@stored_license Plain
       (snd (@validateLicense Plain None desktop 7000
               (snd (@deactivateDevice Plain desktop 6000 activated)))))
  = Some [fp_id (@getDeviceFingerprint Plain desktop 1000)].
Proof.
  assert (In (fp_id (persisted (@getDeviceFingerprint Plain desktop 1000)))
            (currentDevices activated_license)) as Hin by (left; reflexivity).
  assert (Z.of_nat (List.length (currentDevices activated_license))
          <= maxDevices activated_license) as Hlen by (vm_compute; discriminate).
  pose proof (deactivation_undone_by_validation Plain Plain_laws None desktop 6000 7000
                activated activated_license
                (persisted (@getDeviceFingerprint Plain desktop 1000))
                eq_refl eq_refl Hin Hlen eq_refl) as H.
  cbv zeta in H. destruct H as [_ [_ [_ [_ H]]]].
  rewrite H. cbn [currentDevices activated_license demo_license filter persisted fp_id].
  rewrite String.eqb_refl. reflexivity.
Defined.

Lemma ceil_div_bounds :
  forall x d : Z,
    0 < d -> d * (ceil_div x d - 1) < x <= d * ceil_div x d.
Proof.
  intros x d Hd. unfold ceil_div.
  pose proof (Z.div_mod (- x) d ltac:(lia)) as Hdm.
  pose proof (Z.mod_pos_bound (- x) d Hd) as Hmod.
  nia.
Qed.

(** X11: a stored license with an expiry date is refused with "License
    has expired" and zero days remaining as soon as the clock is past the
    date, before the device is looked at and without a write, whether or
    not the profile holds an identity record; up to and including the
    date, a license that lists the id of the device gets a valid answer
    whose days remaining are the time left rounded up to whole days, the
    only write being the identity record [getDeviceId] creates when there
    is none; an expiry date of 0 counts as no expiry.  (Times are
    integers; the double division under [Math.ceil] rounds to the same
    whole number for every time difference below 2^45 milliseconds.) *)
Theorem expiry_and_days_remaining :
  forall (C : Crypto) (licenseKey : option string) (env : Env) (now : Z)
         (st : Storage) (l : License),
    stored_license st = Some l ->
    (forall e : Z,
        expiresAt l = Some e -> e <> 0 -> e < now ->
        validateLicense licenseKey env now st = (expired_error, st))
    /\ (forall e : Z,
          expiresAt l = Some e -> e <> 0 -> now <= e ->
          In (fst (getDeviceId env now st)) (currentDevices l) ->
          exists days : Z,
            validateLicense licenseKey env now st
            = ({| res_valid := true; res_license := Some l; res_error := None;
                  res_daysRemaining := Some days |}, snd (getDeviceId env now st))
            /\ 0 <= days
            /\ MS_PER_DAY * (days - 1) < e - now <= MS_PER_DAY * days)
    /\ (expiresAt l = Some 0 \/ expiresAt l = None ->
        In (fst (getDeviceId env now st)) (currentDevices l) ->
        validateLicense licenseKey env now st
        = ({| res_valid := true; res_license := Some l; res_error := None;
              res_daysRemaining := None |}, snd (getDeviceId env now st)))
    /\ (forall d : DeviceFingerprint,
          chapterflash_device st = Some d -> getDeviceId env now st = (fp_id d, st))
    /\ (chapterflash_device st = None ->
        getDeviceId env now st
        = (fp_id (getDeviceFingerprint env now),
           set_device (persisted (getDeviceFingerprint env now)) st)).
Proof.
  intros C licenseKey env now st l Hst.
  split; [| split; [| split; [| split]]].
  - intros e He Hne Hlt.
    rewrite (validateLicense_stored C licenseKey env now st l Hst).
    unfold checkLicense, expired. rewrite He.
    apply Z.eqb_neq in Hne. rewrite Hne. apply Z.ltb_lt in Hlt. rewrite Hlt.
    reflexivity.
  - intros e He Hne Hle Hin.
    assert (expired l now = false) as Hexp.
    { unfold expired. rewrite He. apply Z.ltb_ge in Hle. rewrite Hle.
      apply andb_false_r. }
    rewrite (validateLicense_stored C licenseKey env now st l Hst).
    rewrite checkLicense_cases by assumption.
    apply includes_In in Hin. rewrite Hin.
    exists (ceil_div (e - now) MS_PER_DAY).
    pose proof (ceil_div_bounds (e - now) MS_PER_DAY ltac:(unfold MS_PER_DAY; lia)) as Hb.
    split; [| split; [| exact Hb]].
    + unfold valid_result, daysRemaining. rewrite He.
      apply Z.eqb_neq in Hne. now rewrite Hne.
    + unfold MS_PER_DAY in *. nia.
  - intros Hnone Hin.
    assert (expired l now = false) as Hexp.
    { unfold expired. destruct Hnone as [-> | ->]; reflexivity. }
    rewrite (validateLicense_stored C licenseKey env now st l Hst).
    rewrite checkLicense_cases by assumption.
    apply includes_In in Hin. rewrite Hin.
    unfold valid_result, daysRemaining. destruct Hnone as [-> | ->]; reflexivity.
  - intros d Hd. unfold getDeviceId. now rewrite Hd.
  - intros Hd. unfold getDeviceId. now rewrite Hd.
Qed.

(** [yearly_license] half a day after it ran out, on a profile that holds
    no identity record: the refusal leaves the profile as it is; and ten
    and a half days before, on [yearly_profile]. *)
Lemma expiry_and_days_remaining_witness :
  @validateLicense Plain None desktop (365 * MS_PER_DAY + 43200000) yearly_unregistered
  = (expired_error, yearly_unregistered)
  /\ exists days : Z,
       @validateLicense Plain None desktop (365 * MS_PER_DAY - 907200000) yearly_profile
       = ({| res_valid := true; res_license := Some yearly_license; res_error := None;
             res_daysRemaining := Some days |}, yearly_profile)
       /\ 0 <= days
       /\ MS_PER_DAY * (days - 1) < 365 * MS_PER_DAY - (365 * MS_PER_DAY - 907200000)
          <= MS_PER_DAY * days.
Proof.
  pose proof (expiry_and_days_remaining Plain None desktop (365 * MS_PER_DAY + 43200000)
                yearly_unregistered yearly_license eq_refl) as [Hpast _].
  pose proof (expiry_and_days_remaining Plain None desktop (365 * MS_PER_DAY - 907200000)
                yearly_profile yearly_license eq_refl) as [_ [Hbefore _]].
  split.
  - apply (Hpast (365 * MS_PER_DAY)); [reflexivity | discriminate | reflexivity].
  - apply (Hbefore (365 * MS_PER_DAY)); [reflexivity | discriminate | discriminate |].
    left. reflexivity.
Defined.

(** ** Rate limiter: the three paths of [canProceed] *)

Lemma canProceed_blocked :
  forall (action : string) (limit : option Z) (now : Z) (rl : RateLimiter),
    blocked rl = true -> now < blockUntil rl ->
    canProceed action limit now rl = (false, rl).
Proof.
  intros action limit now rl Hb Hlt. unfold canProceed. rewrite Hb.
  apply Z.ltb_lt in Hlt. now rewrite Hlt.
Qed.

Lemma canProceed_unblocked :
  forall (action : string) (limit : option Z) (now : Z) (rl : RateLimiter),
    blocked rl = false ->
    canProceed action limit now rl
    = let kept := filter (fun req => Z.ltb (now - req_timestamp req) WINDOW_MS) (requests rl) in
      let totalCount :=
        fold_left (fun sum req => sum + req_count req)
          (filter (fun req => String.eqb (req_action req) action) kept) 0 in
      if Z.geb totalCount (effective_limit action limit)
      then (false,
            {| requests := kept; blocked := true; blockUntil := now + BLOCK_DURATION;
               chapterflash_security_logs :=
                 logSuspiciousActivity action totalCount now (chapterflash_security_logs rl) |})
      else (true,
            {| requests :=
                 (kept ++ [ {| req_timestamp := now; req_action := action; req_count := 1 |} ])%list;
               blocked := false; blockUntil := blockUntil rl;
               chapterflash_security_logs := chapterflash_security_logs rl |}).
Proof.
  intros action limit now rl Hb. unfold canProceed. rewrite Hb. cbn [andb].
  cbv zeta. destruct (Z.geb _ _); rewrite ?Hb; reflexivity.
Qed.

Lemma canProceed_block_expired :
  forall (action : string) (limit : option Z) (now : Z) (rl : RateLimiter),
    blocked rl = true -> blockUntil rl <= now ->
    canProceed action limit now rl
    = if Z.geb 0 (effective_limit action limit)
      then (false,
            {| requests := []; blocked := true; blockUntil := now + BLOCK_DURATION;
               chapterflash_security_logs :=
                 logSuspiciousActivity action 0 now (chapterflash_security_logs rl) |})
      else (true,
            {| requests := [ {| req_timestamp := now; req_action := action; req_count := 1 |} ];
               blocked := false; blockUntil := blockUntil rl;
               chapterflash_security_logs := chapterflash_security_logs rl |}).
Proof.
  intros action limit now rl Hb Hle. unfold canProceed. rewrite Hb. cbn [andb].
  assert (Z.ltb now (blockUntil rl) = false) as -> by (apply Z.ltb_ge; lia).
  assert (Z.geb now (blockUntil rl) = true) as -> by (apply Z.geb_le; lia).
  cbn [requests blocked blockUntil chapterflash_security_logs filter fold_left app].
  destruct (Z.geb 0 _); reflexivity.
Qed.

Lemma totalCount_ones :
  forall (reqs : list RequestRecord) (acc : Z),
    Forall (fun req => req_count req = 1) reqs ->
    fold_left (fun sum req => sum + req_count req) reqs acc
    = acc + Z.of_nat (List.length reqs).
Proof.
  induction reqs as [| r reqs IH]; intros acc H; cbn [fold_left List.length].
  - lia.
  - inversion H as [| ? ? Hr Hrest]; subst. rewrite IH by assumption. rewrite Hr. lia.
Qed.

Lemma filter_filter :
  forall (A : Type) (p q : A -> bool) (l : list A),
    filter q (filter p l) = filter (fun x => p x && q x) l.
Proof.
  intros A p q l. induction l as [| x l IH]; [reflexivity |].
  cbn [filter]. destruct (p x); cbn [filter andb]; [destruct (q x) |]; now rewrite IH.
Qed.

Lemma Forall_filter :
  forall (A : Type) (P : A -> Prop) (p : A -> bool) (l : list A),
    Forall P l -> Forall P (filter p l).
Proof.
  intros A P p l H. apply Forall_forall. intros x Hx.
  apply filter_In in Hx. destruct Hx as [Hx _].
  revert x Hx. now apply Forall_forall.
Qed.

(** With requests of weight 1, the sum [canProceed] compares with the
    limit is the number of requests for the action inside the window. *)
Lemma totalCount_window_count :
  forall (action : string) (now : Z) (reqs : list RequestRecord),
    Forall (fun req => req_count req = 1) reqs ->
    fold_left (fun sum req => sum + req_count req)
      (filter (fun req => String.eqb (req_action req) action)
         (filter (fun req => Z.ltb (now - req_timestamp req) WINDOW_MS) reqs)) 0
    = window_count action now reqs.
Proof.
  intros action now reqs H. rewrite filter_filter.
  rewrite totalCount_ones by now apply Forall_filter.
  unfold window_count. lia.
Qed.

Lemma logSuspiciousActivity_length :
  forall (action : string) (count now : Z) (logs : list SecurityLog),
    (List.length logs <= 50)%nat ->
    (List.length (logSuspiciousActivity action count now logs) <= 50)%nat.
Proof.
  intros action count now logs H. unfold logSuspiciousActivity.
  destruct (Nat.ltb_spec 50 (List.length (logs ++ [ {| log_timestamp := now;
                                                       log_action := action;
                                                       log_requestCount := count |} ])))
    as [Hgt | Hle]; [| exact Hle].
  rewrite length_app in Hgt. cbn [List.length] in Hgt.
  destruct logs as [| e logs]; cbn [app tl List.length] in *; [lia |].
  rewrite length_app. cbn [List.length]. lia.
Qed.

(** What holds of every state of the limiter: each retained request has
    weight 1 and the log holds at most 50 entries. *)
Lemma limiter_reachable_inv :
  forall rl : RateLimiter,
    limiter_reachable rl ->
    Forall (fun req => req_count req = 1) (requests rl)
    /\ (List.length (chapterflash_security_logs rl) <= 50)%nat.
Proof.
  intros rl H. induction H as [| rl action limit now _ [IHc IHl] | rl _ [IHc IHl]].
  - split; [constructor | cbn; lia].
  - destruct (blocked rl) eqn:Hb.
    + destruct (Z.lt_ge_cases now (blockUntil rl)) as [Hlt | Hge].
      * rewrite canProceed_blocked by assumption. now split.
      * rewrite canProceed_block_expired by assumption.
        destruct (Z.geb 0 _); cbn [snd requests chapterflash_security_logs].
        -- split; [constructor | now apply logSuspiciousActivity_length].
        -- split; [repeat constructor | assumption].
    + rewrite canProceed_unblocked by assumption. cbv zeta.
      destruct (Z.geb _ _); cbn [snd requests chapterflash_security_logs].
      * split; [now apply Forall_filter | now apply logSuspiciousActivity_length].
      * split; [| assumption]. apply Forall_app. split.
        -- now apply Forall_filter.
        -- repeat constructor.
  - split; [constructor | exact IHl].
Qed.

(** X12: in a state the limiter can reach, a call is allowed exactly when
    either no block is set and fewer requests for the same action than
    the limit in force lie inside the last 60 seconds, or a block is set,
    its time is over, and the limit in force is positive; requests for
    other actions do not count. *)
Theorem canProceed_allows_iff :
  forall (rl : RateLimiter) (action : string) (limit : option Z) (now : Z),
    limiter_reachable rl ->
    fst (canProceed action limit now rl) = true
    <-> (blocked rl = false
         /\ window_count action now (requests rl) < effective_limit action limit)
        \/ (blocked rl = true /\ blockUntil rl <= now /\ 0 < effective_limit action limit).
Proof.
  intros rl action limit now Hreach.
  destruct (limiter_reachable_inv rl Hreach) as [Hones _].
  destruct (blocked rl) eqn:Hb.
  - destruct (Z.lt_ge_cases now (blockUntil rl)) as [Hlt | Hge].
    + rewrite canProceed_blocked by assumption. cbn [fst].
      split; [discriminate |]. intros [[Hf _] | [_ [Hle _]]]; [discriminate | lia].
    + rewrite canProceed_block_expired by assumption.
      destruct (Z.geb_spec 0 (effective_limit action limit)) as [Hle | Hgt]; cbn [fst].
      * split; [discriminate |]. intros [[Hf _] | [_ [_ Hpos]]]; [discriminate | lia].
      * split; [intros _; right; repeat split; lia | reflexivity].
  - rewrite canProceed_unblocked by assumption. cbv zeta.
    rewrite (totalCount_window_count action now (requests rl) Hones).
    destruct (Z.geb_spec (window_count action now (requests rl))
                (effective_limit action limit)) as [Hge | Hlt]; cbn [fst].
    + split; [discriminate |]. intros [[_ Hlt] | [Hf _]]; [lia | discriminate].
    + split; [intros _; left; now split | reflexivity].
Qed.

(** A new limiter and a first export. *)
Lemma canProceed_allows_iff_witness :
  fst (canProceed "export_data" None 0 new_RateLimiter) = true
  <-> (blocked new_RateLimiter = false
       /\ window_count "export_data" 0 (requests new_RateLimiter)
          < effective_limit "export_data" None)
      \/ (blocked new_RateLimiter = true /\ blockUntil new_RateLimiter <= 0
          /\ 0 < effective_limit "export_data" None).
Proof.
  exact (canProceed_allows_iff new_RateLimiter "export_data" None 0 limiter_new).
Defined.

(** X13: what a call of [canProceed] leaves behind.  An allowed call
    clears the block flag, retains only requests younger than 60 seconds,
    none of them new except its own, which comes last, and does not log.
    A denied call either met a block that is still running and changed
    nothing, or it sets the block for five minutes from now, retains only
    requests younger than 60 seconds and appends one log entry. *)
Theorem canProceed_outcome :
  forall (action : string) (limit : option Z) (now : Z) (rl : RateLimiter),
    (fst (canProceed action limit now rl) = true ->
     blocked (snd (canProceed action limit now rl)) = false
     /\ Forall (fun req => now - req_timestamp req < WINDOW_MS)
          (requests (snd (canProceed action limit now rl)))
     /\ (exists kept : list RequestRecord,
            requests (snd (canProceed action limit now rl))
            = (kept ++ [ {| req_timestamp := now; req_action := action; req_count := 1 |} ])%list
            /\ incl kept (requests rl))
     /\ chapterflash_security_logs (snd (canProceed action limit now rl))
        = chapterflash_security_logs rl)
    /\ (fst (canProceed action limit now rl) = false ->
        (blocked rl = true /\ now < blockUntil rl /\ snd (canProceed action limit now rl) = rl)
        \/ (blocked (snd (canProceed action limit now rl)) = true
            /\ blockUntil (snd (canProceed action limit now rl)) = now + BLOCK_DURATION
            /\ Forall (fun req => now - req_timestamp req < WINDOW_MS)
                 (requests (snd (canProceed action limit now rl)))
            /\ incl (requests (snd (canProceed action limit now rl))) (requests rl)
            /\ exists count : Z,
                 chapterflash_security_logs (snd (canProceed action limit now rl))
                 = logSuspiciousActivity action count now (chapterflash_security_logs rl))).
Proof.
  intros action limit now rl.
  assert (Forall (fun req => now - req_timestamp req < WINDOW_MS)
            (filter (fun req => Z.ltb (now - req_timestamp req) WINDOW_MS) (requests rl)))
    as Hkept.
  { apply Forall_forall. intros r Hr. apply filter_In in Hr. destruct Hr as [_ Hr].
    now apply Z.ltb_lt in Hr. }
  assert (now - now < WINDOW_MS) as Hnow by (unfold WINDOW_MS; lia).
  destruct (blocked rl) eqn:Hb.
  - destruct (Z.lt_ge_cases now (blockUntil rl)) as [Hlt | Hge].
    + rewrite canProceed_blocked by assumption. cbn [fst snd].
      split; [discriminate |]. intros _. left. repeat split; assumption.
    + rewrite canProceed_block_expired by assumption.
      destruct (Z.geb 0 (effective_limit action limit)); cbn [fst snd].
      * split; [discriminate |]. intros _. right.
        cbn [blocked blockUntil requests chapterflash_security_logs].
        repeat split; [constructor | intros x Hx; contradiction |].
        now exists 0.
      * split; [| discriminate]. intros _.
        cbn [blocked requests chapterflash_security_logs].
        repeat split.
        -- repeat constructor. exact Hnow.
        -- exists []. split; [reflexivity | intros x Hx; contradiction].
  - rewrite canProceed_unblocked by assumption. cbv zeta.
    destruct (Z.geb _ (effective_limit action limit)); cbn [fst snd].
    + split; [discriminate |]. intros _. right.
      cbn [blocked blockUntil requests chapterflash_security_logs].
      repeat split; [exact Hkept | apply incl_filter |].
      eexists. reflexivity.
    + split; [| discriminate]. intros _.
      cbn [blocked requests chapterflash_security_logs].
      repeat split.
      * apply Forall_app. split; [exact Hkept | repeat constructor; exact Hnow].
      * eexists. split; [reflexivity | apply incl_filter].
Qed.

(** ** Capped logs *)

(** A log written by "append, then drop the oldest entry when the
    capacity is exceeded", started within its capacity, holds the most
    recent entries, oldest first. *)
Lemma capped_log_fold :
  forall (A : Type) (cap : nat) (push : list A -> A -> list A),
    (forall (log : list A) (x : A),
        push log x
        = if (cap <? List.length (log ++ [x]))%nat then tl (log ++ [x]) else (log ++ [x])%list) ->
    forall (xs init : list A),
      (List.length init <= cap)%nat ->
      fold_left push xs init
      = skipn (List.length (init ++ xs) - cap) (init ++ xs)%list.
Proof.
  intros A cap push Hpush xs. induction xs as [| x xs IH]; intros init Hinit.
  - cbn [fold_left]. rewrite app_nil_r.
    replace (List.length init - cap)%nat with 0%nat by lia. reflexivity.
  - cbn [fold_left]. rewrite Hpush.
    assert (List.length (init ++ [x]) = S (List.length init)) as Hlen
        by (rewrite length_app; cbn [List.length]; lia).
    destruct (Nat.ltb_spec cap (List.length (init ++ [x]))) as [Hgt | Hle].
    + destruct init as [| y init]; cbn [app tl List.length] in *.
      * assert (cap = 0%nat) as -> by lia.
        rewrite IH by (cbn; lia). cbn [app List.length].
        rewrite !Nat.sub_0_r. reflexivity.
      * rewrite IH by (rewrite length_app; cbn [List.length]; lia).
        rewrite <- app_assoc. cbn [app].
        replace (S (List.length (init ++ x :: xs)) - cap)%nat
          with (S (List.length (init ++ x :: xs) - cap)) by (rewrite length_app in *; cbn [List.length] in *; lia).
        reflexivity.
    + rewrite IH by lia. rewrite <- app_assoc. reflexivity.
Qed.

Lemma logSuspiciousActivity_entry :
  forall (logs : list SecurityLog) (entry : SecurityLog),
    logSuspiciousActivity (log_action entry) (log_requestCount entry) (log_timestamp entry) logs
    = if (50 <? List.length (logs ++ [entry]))%nat then tl (logs ++ [entry])
      else (logs ++ [entry])%list.
Proof.
  intros logs [t a c]. reflexivity.
Qed.

(** X14: in every state the limiter can reach the security log holds at
    most 50 entries; written from empty, the log holds the last 50 entries
    logged, oldest first, and a full log loses exactly its oldest entry to
    the next one. *)
Theorem security_log_is_capped :
  forall (rl : RateLimiter) (entries : list SecurityLog),
    limiter_reachable rl ->
    (List.length (chapterflash_security_logs rl) <= 50)%nat
    /\ fold_left
         (fun logs entry =>
            logSuspiciousActivity (log_action entry) (log_requestCount entry)
              (log_timestamp entry) logs)
         entries []
       = skipn (List.length entries - 50) entries
    /\ (forall (action : string) (count now : Z),
          List.length (chapterflash_security_logs rl) = 50%nat ->
          logSuspiciousActivity action count now (chapterflash_security_logs rl)
          = (tl (chapterflash_security_logs rl)
               ++ [ {| log_timestamp := now; log_action := action;
                       log_requestCount := count |} ])%list).
Proof.
  intros rl entries Hreach. split; [| split].
  - now apply limiter_reachable_inv.
  - rewrite (capped_log_fold SecurityLog 50
               (fun logs entry =>
                  logSuspiciousActivity (log_action entry) (log_requestCount entry)
                    (log_timestamp entry) logs)
               logSuspiciousActivity_entry entries []) by (cbn; lia).
    reflexivity.
  - intros action count now Hfull. unfold logSuspiciousActivity.
    rewrite length_app, Hfull. cbn [List.length Nat.add Nat.ltb Nat.leb].
    destruct (chapterflash_security_logs rl); [discriminate | reflexivity].
Qed.

Lemma run_calls_reachable :
  forall (action : string) (limit : option Z) (times : list Z) (rl : RateLimiter),
    limiter_reachable rl -> limiter_reachable (snd (run_calls action limit times rl)).
Proof.
  intros action limit times. induction times as [| t times IH]; intros rl Hreach.
  - exact Hreach.
  - cbn [run_calls].
    pose proof (limiter_canProceed rl action limit t Hreach) as Hstep.
    destruct (canProceed action limit t rl) as [ok rl1]. cbn [snd] in Hstep.
    specialize (IH rl1 Hstep).
    destruct (run_calls action limit times rl1) as [oks rl2]. exact IH.
Qed.

(** The limiter right after its first block. *)
Lemma security_log_is_capped_witness :
  (List.length (chapterflash_security_logs blocked_limiter) <= 50)%nat.
Proof.
  refine (proj1 (security_log_is_capped blocked_limiter [] _)).
  unfold blocked_limiter. apply limiter_canProceed, run_calls_reachable, limiter_new.
Defined.

(** X15: the violation log written by [logViolation] from empty holds at
    most 100 entries, namely the last 100 violations recorded, oldest
    first; recording 101 violations leaves exactly the last 100. *)
Theorem violation_log_is_capped :
  forall violations : list Violation,
    fold_left (fun stored v => logViolation v stored) violations []
    = skipn (List.length violations - 100) violations
    /\ (List.length (fold_left (fun stored v => logViolation v stored) violations []) <= 100)%nat
    /\ (List.length violations = 101%nat ->
        fold_left (fun stored v => logViolation v stored) violations [] = tl violations).
Proof.
  intros violations.
  assert (fold_left (fun stored v => logViolation v stored) violations []
          = skipn (List.length violations - 100) violations) as Hfold.
  { rewrite (capped_log_fold Violation 100 (fun stored v => logViolation v stored)
               (fun stored v => eq_refl) violations []) by (cbn; lia).
    reflexivity. }
  split; [exact Hfold |]. rewrite Hfold. split.
  - rewrite length_skipn. lia.
  - intros Hlen. rewrite Hlen. cbn [Nat.sub].
    destruct violations; [discriminate | reflexivity].
Qed.

(** ** Rate limiter: any limit, the gate, the status *)

Lemma history_requests_in :
  forall (x : string) (ts : list Z) (r : RequestRecord),
    In r (requests (history x ts)) ->
    In (req_timestamp r) ts /\ req_action r = x /\ req_count r = 1.
Proof.
  intros x ts r Hin. cbn [history requests] in Hin.
  apply in_map_iff in Hin. destruct Hin as [t [<- Ht]]. cbn. auto.
Qed.

(** On a history of one action, all inside the window: the sum compared
    with the limit is the length of the history. *)
Lemma canProceed_history :
  forall (x : string) (limit : option Z) (now : Z) (ts : list Z),
    (forall t : Z, In t ts -> now - t < WINDOW_MS) ->
    canProceed x limit now (history x ts)
    = if Z.geb (Z.of_nat (List.length ts)) (effective_limit x limit)
      then (false,
            {| requests := requests (history x ts);
               blocked := true;
               blockUntil := now + BLOCK_DURATION;
               chapterflash_security_logs :=
                 [ {| log_timestamp := now; log_action := x;
                      log_requestCount := Z.of_nat (List.length ts) |} ] |})
      else (true, history x (ts ++ [now])).
Proof.
  intros x limit now ts Hwin.
  rewrite canProceed_unblocked by reflexivity. cbv zeta.
  assert (filter (fun req => Z.ltb (now - req_timestamp req) WINDOW_MS) (requests (history x ts))
          = requests (history x ts)) as ->.
  { apply filter_all. intros r Hr. apply history_requests_in in Hr.
    destruct Hr as [Ht _]. apply Z.ltb_lt. now apply Hwin. }
  assert (filter (fun req => String.eqb (req_action req) x) (requests (history x ts))
          = requests (history x ts)) as ->.
  { apply filter_all. intros r Hr. apply history_requests_in in Hr.
    destruct Hr as [_ [Ha _]]. rewrite Ha. apply String.eqb_refl. }
  rewrite totalCount_ones.
  2: { apply Forall_forall. intros r Hr. now apply history_requests_in in Hr. }
  cbn [history requests blocked blockUntil chapterflash_security_logs].
  rewrite length_map. cbn [Z.add].
  destruct (Z.geb _ _); [reflexivity |].
  unfold history. now rewrite map_app.
Qed.

Lemma run_calls_history :
  forall (x : string) (limit : option Z) (times pre : list Z),
    (forall t t' : Z, In t (pre ++ times) -> In t' (pre ++ times) -> t - t' < WINDOW_MS) ->
    Z.of_nat (List.length (pre ++ times)) <= effective_limit x limit ->
    run_calls x limit times (history x pre)
    = (repeat true (List.length times), history x (pre ++ times)).
Proof.
  intros x limit times. induction times as [| t times IH]; intros pre Hwin Hlen.
  - cbn [run_calls List.length repeat]. now rewrite app_nil_r.
  - cbn [run_calls].
    rewrite canProceed_history.
    2: { intros t' Ht'. apply Hwin; apply in_or_app; [right; now left | now left]. }
    rewrite length_app in Hlen. cbn [List.length] in Hlen.
    destruct (Z.geb_spec (Z.of_nat (List.length pre)) (effective_limit x limit)); [lia |].
    rewrite (IH (pre ++ [t])%list).
    + rewrite <- app_assoc. reflexivity.
    + rewrite <- app_assoc. exact Hwin.
    + rewrite <- app_assoc. rewrite length_app. cbn [List.length app]. lia.
Qed.

(** *** A limit of 0 *)

(** C10: an explicit limit of 0 is falsy in [limit || default], so the call
    behaves exactly as if no limit had been passed, and the limit that is
    enforced is the default of the action (50, 100, 5, 20, else 100).  On
    a fresh limiter the call is allowed.  In any state the limiter can
    reach, the call is allowed exactly when no block is set and fewer
    requests for the action than its default lie inside the window, or a
    block is set and its time is over.  On a history of [n] requests for
    the action inside the window the call is allowed and recorded when
    [n] is below the default, and otherwise denied, with the block set
    and the count logged; so from a fresh limiter exactly as many calls
    as the default go through. *)
Theorem zero_limit_uses_default :
  forall (action : string) (now : Z) (rl : RateLimiter),
    canProceed action (Some 0) now rl = canProceed action None now rl
    /\ effective_limit action (Some 0) = getActionLimit action
    /\ getActionLimit "flashcard_view" = 50
    /\ getActionLimit "api_call" = 100
    /\ getActionLimit "export_data" = 5
    /\ getActionLimit "chapter_access" = 20
    /\ (action <> "flashcard_view" -> action <> "api_call" ->
        action <> "export_data" -> action <> "chapter_access" ->
        getActionLimit action = 100)
    /\ fst (canProceed action (Some 0) now new_RateLimiter) = true
    /\ (limiter_reachable rl ->
        (fst (canProceed action (Some 0) now rl) = true
         <-> (blocked rl = false
              /\ window_count action now (requests rl) < getActionLimit action)
             \/ (blocked rl = true /\ blockUntil rl <= now)))
    /\ (forall ts : list Z,
          (forall t : Z, In t ts -> now - t < WINDOW_MS) ->
          canProceed action (Some 0) now (history action ts)
          = if Z.geb (Z.of_nat (List.length ts)) (getActionLimit action)
            then (false,
                  {| requests := requests (history action ts);
                     blocked := true;
                     blockUntil := now + BLOCK_DURATION;
                     chapterflash_security_logs :=
                       [ {| log_timestamp := now; log_action := action;
                            log_requestCount := Z.of_nat (List.length ts) |} ] |})
            else (true, history action (ts ++ [now])))
    /\ (forall times : list Z,
          (forall t t' : Z, In t times -> In t' times -> t - t' < WINDOW_MS) ->
          Z.of_nat (List.length times) = getActionLimit action ->
          run_calls action (Some 0) times new_RateLimiter
          = (repeat true (List.length times), history action times)
          /\ forall later : Z,
               (forall t : Z, In t times -> later - t < WINDOW_MS) ->
               fst (canProceed action (Some 0) later (history action times)) = false).
Proof.
  intros action now rl.
  pose proof (getActionLimit_positive action) as Hpos.
  split; [reflexivity |]. split; [reflexivity |].
  do 4 (split; [reflexivity |]).
  split.
  { intros H1 H2 H3 H4. unfold getActionLimit.
    apply String.eqb_neq in H1, H2, H3, H4. now rewrite H1, H2, H3, H4. }
  split.
  { unfold canProceed. cbn [new_RateLimiter blocked requests andb filter fold_left].
    unfold effective_limit. cbn [Z.eqb].
    destruct (Z.geb_spec 0 (getActionLimit action)); [lia | reflexivity]. }
  split.
  { intros Hreach.
    destruct (limiter_reachable_inv rl Hreach) as [Hones _].
    destruct (blocked rl) eqn:Hb.
    - destruct (Z.lt_ge_cases now (blockUntil rl)) as [Hlt | Hge].
      + rewrite canProceed_blocked by assumption. cbn [fst].
        split; [discriminate |]. intros [[Hf _] | [_ Hle]]; [discriminate | lia].
      + rewrite canProceed_block_expired by assumption.
        change (effective_limit action (Some 0)) with (getActionLimit action).
        destruct (Z.geb_spec 0 (getActionLimit action)) as [Hle | Hgt]; [lia |].
        cbn [fst]. split; [intros _; right; now split | reflexivity].
    - rewrite canProceed_unblocked by assumption. cbv zeta.
      rewrite (totalCount_window_count action now (requests rl) Hones).
      change (effective_limit action (Some 0)) with (getActionLimit action).
      destruct (Z.geb_spec (window_count action now (requests rl))
                  (getActionLimit action)) as [Hge | Hlt]; cbn [fst].
      + split; [discriminate |]. intros [[_ Hlt] | [Hf _]]; [lia | discriminate].
      + split; [intros _; left; now split | reflexivity]. }
  split.
  { intros ts Hwin. now rewrite canProceed_history by assumption. }
  intros times Hwin Hlen. split.
  - apply (run_calls_history action (Some 0) times [] Hwin).
    change (effective_limit action (Some 0)) with (getActionLimit action).
    cbn [app]. lia.
  - intros later Hlater. rewrite canProceed_history by assumption.
    change (effective_limit action (Some 0)) with (getActionLimit action).
    rewrite Hlen. now rewrite (proj2 (Z.geb_le _ _)) by lia.
Qed.

(** X16: whatever the limit in force, explicit or the default of the
    action, the limiter allows that many calls for the action within any
    60 seconds and records each of them; the next call inside the window
    is denied, sets the block for five minutes and logs the count. *)
Theorem quota_of_any_limit :
  forall (x : string) (limit : option Z) (times : list Z),
    (forall t t' : Z, In t times -> In t' times -> t - t' < WINDOW_MS) ->
    Z.of_nat (List.length times) <= effective_limit x limit ->
    run_calls x limit times new_RateLimiter
    = (repeat true (List.length times), history x times)
    /\ (Z.of_nat (List.length times) = effective_limit x limit ->
        forall now : Z,
          (forall t : Z, In t times -> now - t < WINDOW_MS) ->
          canProceed x limit now (history x times)
          = (false,
             {| requests := requests (history x times);
                blocked := true;
                blockUntil := now + BLOCK_DURATION;
                chapterflash_security_logs :=
                  [ {| log_timestamp := now; log_action := x;
                       log_requestCount := effective_limit x limit |} ] |})).
Proof.
  intros x limit times Hwin Hlen. split.
  - exact (run_calls_history x limit times [] Hwin Hlen).
  - intros Hfull now Hnow. rewrite canProceed_history by assumption.
    rewrite Hfull. now rewrite (proj2 (Z.geb_le _ _)) by lia.
Qed.

(** Twenty chapter openings half a second apart, the default limit of
    [chapter_access]. *)
Lemma quota_of_any_limit_witness :
  run_calls "chapter_access" None (evenly_spaced 0 500 20) new_RateLimiter
  = (repeat true 20, history "chapter_access" (evenly_spaced 0 500 20)).
Proof.
  refine (proj1 (quota_of_any_limit "chapter_access" None (evenly_spaced 0 500 20) _ _)).
  - intros t t' Ht Ht'. unfold WINDOW_MS.
    cbn [evenly_spaced Z.add Pos.add Pos.succ In] in Ht, Ht'.
    repeat (destruct Ht as [<- | Ht]; [| ]); try contradiction;
      repeat (destruct Ht' as [<- | Ht']; [| ]); try contradiction; reflexivity.
  - vm_compute. discriminate.
Defined.

(** X17: a function wrapped by [withRateLimit] runs exactly when
    [canProceed] allows the action and [detectBotBehavior] does not flag
    the history that includes the new request; when either error is
    thrown the function is not run, so its state is untouched; a call
    refused as automated has nevertheless been recorded by the limiter. *)
Theorem withRateLimit_gate :
  forall (E : Engine) (W A B : Type) (fn : A -> W -> B * W) (action : string)
         (now now' : Z) (arg : A) (rl : RateLimiter) (w : W),
    (fst (canProceed action None now rl) = false ->
     withRateLimit fn action now now' arg (rl, w)
     = (RateLimitExceeded, (snd (canProceed action None now rl), w)))
    /\ (fst (canProceed action None now rl) = true ->
        detectBotBehavior now' (snd (canProceed action None now rl)) = true ->
        withRateLimit fn action now now' arg (rl, w)
        = (AutomatedAccess, (snd (canProceed action None now rl), w))
        /\ In {| req_timestamp := now; req_action := action; req_count := 1 |}
             (requests (snd (canProceed action None now rl))))
    /\ (fst (canProceed action None now rl) = true ->
        detectBotBehavior now' (snd (canProceed action None now rl)) = false ->
        withRateLimit fn action now now' arg (rl, w)
        = (Returned (fst (fn arg w)),
           (snd (canProceed action None now rl), snd (fn arg w))))
    /\ (forall b : B,
          fst (withRateLimit fn action now now' arg (rl, w)) = Returned b ->
          fst (canProceed action None now rl) = true
          /\ detectBotBehavior now' (snd (canProceed action None now rl)) = false
          /\ b = fst (fn arg w))
    /\ (fst (withRateLimit fn action now now' arg (rl, w)) <> Returned (fst (fn arg w)) ->
        snd (snd (withRateLimit fn action now now' arg (rl, w))) = w).
Proof.
  intros E W A B fn action now now' arg rl w.
  pose proof (canProceed_outcome action None now rl) as [Hallowed _].
  unfold withRateLimit. cbn [fst snd].
  destruct (canProceed action None now rl) as [ok rl1] eqn:Ecall. cbn [fst snd] in *.
  destruct ok; cbn [negb].
  - destruct (detectBotBehavior now' rl1) eqn:Hbot.
    + split; [discriminate |]. split.
      { intros _ _. split; [reflexivity |].
        destruct (Hallowed eq_refl) as [_ [_ [[kept [-> _]] _]]].
        apply in_or_app. right. now left. }
      split; [discriminate |]. split; [discriminate | reflexivity].
    + destruct (fn arg w) as [b0 w0] eqn:Ef. cbn [fst snd].
      split; [discriminate |]. split; [discriminate |].
      split; [reflexivity |]. split.
      * intros b Hb. inversion Hb. auto.
      * intros Hne. contradiction.
  - split; [reflexivity |]. split; [discriminate |]. split; [discriminate |].
    split; [discriminate | reflexivity].
Qed.


(** ** Bot heuristic: what it cannot flag *)

Lemma gaps_length :
  forall ts : list Z, List.length (gaps ts) = pred (List.length ts).
Proof.
  induction ts as [| a ts IH]; [reflexivity |].
  destruct ts as [| b ts]; [reflexivity |].
  change (gaps (a :: b :: ts)) with ((b - a) :: gaps (b :: ts)).
  cbn [List.length pred] in *. now rewrite IH.
Qed.

(** X19: a history of fewer than twelve requests is never flagged. *)
Theorem short_history_is_not_flagged :
  forall (E : Engine) (now : Z) (rl : RateLimiter),
    (List.length (requests rl) <= 11)%nat ->
    detectBotBehavior now rl = false.
Proof.
  intros E now rl Hlen. unfold detectBotBehavior.
  pose proof (filter_length_le (fun req => Z.ltb (now - req_timestamp req) 5000)
                (requests rl)) as Hrecent.
  destruct (Nat.ltb_spec 20
              (List.length (filter (fun req => Z.ltb (now - req_timestamp req) 5000)
                              (requests rl)))) as [Hgt | _]; [lia |].
  rewrite intervals_gaps.
  pose proof (filter_length_le (fun z => negb (Z.eqb z 0))
                (gaps (map req_timestamp (requests rl)))) as Hgaps.
  rewrite gaps_length, length_map in Hgaps.
  destruct (Nat.ltb_spec 10
              (List.length (filter (fun z => negb (Z.eqb z 0))
                              (gaps (map req_timestamp (requests rl)))))) as [Hgt | _];
    [lia | reflexivity].
Qed.

(** Eleven views one second apart. *)
Lemma short_history_is_not_flagged_witness :
  @detectBotBehavior Rounded 10000 (history "flashcard_view" (evenly_spaced 0 1000 11))
  = false.
Proof.
  refine (short_history_is_not_flagged Rounded 10000
            (history "flashcard_view" (evenly_spaced 0 1000 11)) _).
  cbn. lia.
Defined.

Lemma gaps_constant :
  forall (t : Z) (ts : list Z),
    (forall t' : Z, In t' ts -> t' = t) ->
    filter (fun z => negb (Z.eqb z 0)) (gaps ts) = [].
Proof.
  intros t ts. induction ts as [| a ts IH]; intros H; [reflexivity |].
  destruct ts as [| b ts]; [reflexivity |].
  change (gaps (a :: b :: ts)) with ((b - a) :: gaps (b :: ts)).
  cbn [filter].
  assert (b - a = 0) as -> by (rewrite (H a), (H b); [lia | right; now left | now left]).
  cbn [Z.eqb negb].
  apply IH. intros t' Ht'. apply H. now right.
Qed.

Lemma filter_none :
  forall (A : Type) (p : A -> bool) (l : list A),
    (forall x, In x l -> p x = false) -> filter p l = [].
Proof.
  intros A p l. induction l as [| x l IH]; intros H; cbn [filter].
  - reflexivity.
  - rewrite (H x) by now left. apply IH. intros y Hy. apply H. now right.
Qed.

(** X20: when every retained request carries the same timestamp, as
    after a burst of calls within one millisecond, the timing pattern sees
    no interval at all, and the history is flagged exactly when it holds
    more than 20 requests and that timestamp is less than five seconds
    old. *)
Theorem same_millisecond_burst :
  forall (E : Engine) (now t : Z) (rl : RateLimiter),
    (forall req : RequestRecord, In req (requests rl) -> req_timestamp req = t) ->
    filter_Boolean (raw_intervals (requests rl)) = []
    /\ (detectBotBehavior now rl = true
        <-> (20 < List.length (requests rl))%nat /\ now - t < 5000).
Proof.
  intros E now t rl Hsame.
  assert (filter_Boolean (raw_intervals (requests rl)) = []) as Hno.
  { rewrite intervals_gaps. apply (gaps_constant t).
    intros t' Ht'. apply in_map_iff in Ht'. destruct Ht' as [r [<- Hr]]. now apply Hsame. }
  split; [exact Hno |].
  unfold detectBotBehavior. rewrite Hno.
  change (10 <? List.length (@nil Z))%nat with false. cbv iota.
  destruct (Z.ltb_spec (now - t) 5000) as [Hlt | Hge].
  - rewrite filter_all.
    2: { intros r Hr. rewrite (Hsame r Hr). now apply Z.ltb_lt. }
    destruct (Nat.ltb_spec 20 (List.length (requests rl))) as [Hgt | Hle].
    + split; [intros _; now split | reflexivity].
    + split; [discriminate | intros [Hgt _]; lia].
  - assert (filter (fun req => Z.ltb (now - req_timestamp req) 5000) (requests rl) = []) as ->.
    { apply filter_none. intros r Hr. rewrite (Hsame r Hr). now apply Z.ltb_ge. }
    change (20 <? List.length (@nil RequestRecord))%nat with false. cbv iota.
    split; [discriminate | intros [_ ?]; lia].
Qed.

(** The history [burst], inspected in the same millisecond. *)
Lemma same_millisecond_burst_witness :
  @detectBotBehavior Rounded 7000 burst = true
  <-> (20 < List.length (requests burst))%nat /\ 7000 - 7000 < 5000.
Proof.
  refine (proj2 (same_millisecond_burst Rounded 7000 7000 burst _)).
  intros req Hreq. apply history_requests_in in Hreq. destruct Hreq as [Hreq _].
  now apply repeat_spec in Hreq.
Defined.

(** ** Streaks *)

Section StreakProofs.

Variable sort_by_date_desc : list DailyStreak -> list DailyStreak.
Variable today : string.
Variable expected : nat -> string.
Variable isConsecutiveDay : string -> string -> bool.

(** The loop keeps its two counters equal. *)
Lemma streak_loop_counters :
  forall (rest : list DailyStreak) (i : nat) (prev : option DailyStreak) (n : Z),
    fst (streak_loop today expected isConsecutiveDay rest i prev n n)
    = snd (streak_loop today expected isConsecutiveDay rest i prev n n)
    /\ n <= fst (streak_loop today expected isConsecutiveDay rest i prev n n)
       <= n + Z.of_nat (List.length rest).
Proof.
  induction rest as [| s rest IH]; intros i prev n; cbn [streak_loop List.length].
  - cbn [fst snd]. lia.
  - destruct (String.eqb (streak_date s) (expected i)); [| cbn [fst snd]; lia].
    destruct (Nat.eqb i 0 || String.eqb (streak_date s) today
              || match prev with
                 | Some p => isConsecutiveDay (streak_date p) (streak_date s)
                 | None => false
                 end).
    + cbv zeta. rewrite (proj2 (Z.ltb_lt n (n + 1))) by lia.
      destruct (IH (S i) (Some s) (n + 1)) as [Heq Hb]. split; [exact Heq | lia].
    + destruct (IH (S i) (Some s) n) as [Heq Hb]. split; [exact Heq | lia].
Qed.

End StreakProofs.

(** X21: whatever the calendar, [calculateStreaks] returns a longest
    streak equal to the current streak; both lie between 0 and the number
    of days on record, and both are 0 when the most recent day on record
    is not today. *)
Theorem longest_streak_is_current_streak :
  forall (sort_by_date_desc : list DailyStreak -> list DailyStreak) (today : string)
         (expected : nat -> string) (isConsecutiveDay : string -> string -> bool)
         (streaks : list DailyStreak),
    snd (calculateStreaks sort_by_date_desc today expected isConsecutiveDay streaks)
    = fst (calculateStreaks sort_by_date_desc today expected isConsecutiveDay streaks)
    /\ 0 <= fst (calculateStreaks sort_by_date_desc today expected isConsecutiveDay streaks)
       <= Z.of_nat (List.length (sort_by_date_desc streaks))
    /\ (forall (s : DailyStreak) (rest : list DailyStreak),
          sort_by_date_desc streaks = s :: rest ->
          streak_date s <> expected 0%nat ->
          calculateStreaks sort_by_date_desc today expected isConsecutiveDay streaks = (0, 0)).
Proof.
  intros sort_by_date_desc today expected isConsecutiveDay streaks.
  unfold calculateStreaks. destruct streaks as [| s0 streaks0].
  - cbn [fst snd]. split; [reflexivity |]. split; [cbn; lia |].
    intros s rest _ _. reflexivity.
  - destruct (streak_loop_counters today expected isConsecutiveDay
                (sort_by_date_desc (s0 :: streaks0)) 0 None 0) as [Heq Hb].
    split; [now rewrite Heq |]. split; [lia |].
    intros s rest Hsort Hdate. rewrite Hsort. cbn [streak_loop].
    apply String.eqb_neq in Hdate. now rewrite Hdate.
Qed.
